(** * go-cti: package manager, bundle dictionaries and filesystem helpers

    A shallow embedding of [pkg/pacman/pacman.go], [pkg/filesys/directory.go]
    and [pkg/bundle/bundle.go], with the properties of the design document
    stated and proved over it.

    Conventions.
    - A Go function returning [(T, error)] is a computation [M S T] over the
      state [S] it can reach; a function returning [error] is [M S unit].
      The state is returned on both outcomes: a Go function that fails keeps
      the side effects it performed before failing.
    - [fmt.Errorf("ctx: %w", err)] is [Errorf "ctx: " err]; [Error] renders
      the message as Go's [Error()] method does.
    - Functions, constants and types that live outside the three files (the
      resolver [Download], [ParseIndexDependency], the parser, the validator,
      the persistence methods, the zip writer, the operating system) are the
      fields of a class of collaborators: every theorem holds for all of
      their behaviours, and an instance of each class makes the definitions
      run on examples.
    - A Go map that the code ranges over once is given as the list of its
      entries in the order of the visit, which Go leaves unspecified;
      theorems quantify over every such list. A map ranged over several
      times ([typ.Annotations], once per instance) comes with the order of
      each visit, and theorems quantify over every choice of orders.
    - [Index.Clone] and [Index.PutSerialized] are modelled from the design
      document.
    - Logging ([slog.Info]) and the deferred [Close] calls have no part in
      what is stated and are left out. *)

From stdpp Require Import gmap strings list.
From Stdlib.Strings Require Import Byte.

Set Default Proof Using "Type".

Definition bytes : Type := list byte.

(** ** Errors *)

Inductive error : Type :=
  | ErrNew (msg : string)
  | Errorf (ctx : string) (cause : error).

Fixpoint Error (e : error) : string :=
  match e with
  | ErrNew msg => msg
  | Errorf ctx cause => ctx +:+ Error cause
  end.

Definition Unwrap (e : error) : option error :=
  match e with
  | ErrNew _ => None
  | Errorf _ cause => Some cause
  end.

(** [strings.Contains]: [substr] occurs somewhere in [s]. *)
Fixpoint strings_Contains (s substr : string) : bool :=
  if String.prefix substr s then true
  else match s with
       | EmptyString => false
       | String _ s' => strings_Contains s' substr
       end.

(** An error names [who] when its rendered message mentions it. *)
Definition names (e : error) (who : string) : Prop :=
  strings_Contains (Error e) who = true.

(** ** State and error monad *)

Definition M (S A : Type) : Type := S → S * (error + A).

Definition ret {S A} (a : A) : M S A := λ s, (s, inr a).

Definition fail {S A} (e : error) : M S A := λ s, (s, inl e).

Definition bind {S A B} (c : M S A) (k : A → M S B) : M S B :=
  λ s, match c s with
       | (s', inl e) => (s', inl e)
       | (s', inr a) => k a s'
       end.

Definition gets {S A} (f : S → A) : M S A := λ s, (s, inr (f s)).

Definition modify {S} (f : S → S) : M S unit := λ s, (f s, inr tt).

(** [if err != nil { return fmt.Errorf(ctx + "%w", err) }] around a call. *)
Definition wrapf {S A} (ctx : string) (c : M S A) : M S A :=
  λ s, match c s with
       | (s', inl e) => (s', inl (Errorf ctx e))
       | (s', inr a) => (s', inr a)
       end.

(** A collaborator returning only [error]: [nil] is [None]. *)
Definition check {S} (f : S → S * option error) : M S unit :=
  λ s, match f s with
       | (s', Some e) => (s', inl e)
       | (s', None) => (s', inr tt)
       end.

Notation "'let*' x ':=' c 'in' k" := (bind c (λ x, k))
  (at level 10, x pattern, c at level 100, k at level 200).

(** [for _, x := range l { if err := body(x); err != nil { return err } }] *)
Fixpoint forEach {S A} (l : list A) (body : A → M S unit) : M S unit :=
  match l with
  | [] => ret tt
  | x :: rest => let* _ := body x in forEach rest body
  end.

(** ** pkg/pacman *)

Module Pacman.

Record PackageLock : Type := {
  AppCode : string;
  Depends : list string
}.

(** The zero value a Go map lookup yields for a missing key, the map
    holding struct values. *)
Definition PackageLock_zero : PackageLock := {| AppCode := ""; Depends := [] |}.

Record Index : Type := {
  Index_FilePath : string;
  Index_BaseDir : string;
  Index_Depends : list string;
  Index_Serialized : list string
}.

Record IndexLock : Type := {
  Packages : gmap string PackageLock
}.

Record Package : Type := {
  Package_Index : Index;
  Package_IndexLock : IndexLock;
  Package_BaseDir : string
}.

Record PackageManager : Type := {
  Package_ : Package;
  PackageCacheDir : string;
  DependenciesDir : string;
  BaseDir : string
}.

Definition DependencyDirName : string := ".dep".
Definition BundleName : string := "bundle.zip".

(** [pacman.Package.Index.Depends] *)
Definition manifest (pm : PackageManager) : list string :=
  Index_Depends (Package_Index (Package_ pm)).

(** [pacman.Package.Index.Depends = depends] *)
Definition set_Index_Depends (depends : list string) (pm : PackageManager)
  : PackageManager :=
  let pkg := Package_ pm in
  let idx := Package_Index pkg in
  {| Package_ :=
       {| Package_Index :=
            {| Index_FilePath := Index_FilePath idx;
               Index_BaseDir := Index_BaseDir idx;
               Index_Depends := depends;
               Index_Serialized := Index_Serialized idx |};
          Package_IndexLock := Package_IndexLock pkg;
          Package_BaseDir := Package_BaseDir pkg |};
     PackageCacheDir := PackageCacheDir pm;
     DependenciesDir := DependenciesDir pm;
     BaseDir := BaseDir pm |}.

(** [pacman.Package.IndexLock.Packages[name]] *)
Definition lockOf (name : string) (pm : PackageManager) : PackageLock :=
  default PackageLock_zero (Packages (Package_IndexLock (Package_ pm)) !! name).

(** The registry the parser builds. [Instances] and [Annotations] are Go
    maps that the code only ranges over. [Instances] is ranged over once: it
    is given as the list of its entries in the order the run visits them,
    which Go leaves unspecified. [Annotations] is ranged over once for each
    instance of the type, every time in an order of its own: it is given as
    a list of its entries, and [Pack] takes the order of each visit. *)
Record Annotation : Type := {
  Asset : option bool
}.

Record Entity : Type := {
  Cti : string;
  Values : bytes;
  Annotations : list (string * Annotation)
}.

Record CtiRegistry : Type := {
  Types : gmap string Entity;
  Instances : list Entity;
  Total : gmap string Entity
}.

Record ParsedPackage : Type := {
  Registry : CtiRegistry;
  Parsed_BaseDir : string
}.

(** Calls that leave the package manager, in the order they are made. *)
Inductive Call : Type :=
  | CallDownload (depends : list string) (replace : bool)
  | CallRewriteDepLinks (pkgPath depAppCode : string)
  | CallBuildPackageCache (indexFile : string)
  | CallSaveIndex (idx : Index)
  | CallSaveIndexLock (lock : IndexLock)
  | CallParsePackage (indexFile : string)
  | CallDumpCache
  | CallMakeCtiValidator
  | CallAddEntities
  | CallReadIndexFile (indexFile : string)
  | CallAddFromFile (cacheFile : string)
  | CallValidateAll.

Definition isSave (c : Call) : bool :=
  match c with
  | CallSaveIndex _ | CallSaveIndexLock _ => true
  | _ => false
  end.

(** What the package manager relies on and this file does not define.
    [W] is everything outside the manager's memory: disk, network, the
    validator object. A method of the manager reaches the manager and the
    world; the other functions reach the world only. [os_OpenFile name w]
    stands for opening [name] read-only and reading it to the end: it gives
    the bytes of the file and leaves the world as it is. *)
Class Collaborators (W : Type) : Type := {
  ParseIndexDependency : string → string * string;
  filepath_Join : list string → string;
  IndexFileName : string;
  MetadataCacheFile : string;
  Download :
    list string → bool → PackageManager → W →
    PackageManager * W * (error + (list string * gset string));
  rewriteDepLinks :
    string → string → PackageManager → W → PackageManager * W * option error;
  BuildPackageCache : string → W → W * option error;
  SaveIndex : Package → W → W * option error;
  SaveIndexLock : Package → W → W * option error;
  ParsePackage : string → W → W * (error + ParsedPackage);
  DumpCache : ParsedPackage → W → W * option error;
  MakeCtiValidator : W → W;
  AddEntities : gmap string Entity → W → W * option error;
  ReadIndexFile : string → W → W * (error + Index);
  AddFromFile : string → W → W * option error;
  ValidateAll : W → W * list error;
  GetParentCti : string → string;
  GetValue_String : string → bytes → string;
  Index_ToBytes : Index → bytes;
  os_Create : string → W → W * option error;
  os_OpenFile : string → W → error + bytes;
  zip_Create_error : list (string * bytes) → string → option error;
  zip_Write_error : list (string * bytes) → bytes → option error
}.

(** *** Lines 56-80: reconciling the manifest with the request *)

Section Reconcile.

Variable parse : string → string * string.

(** [depName, _ := ParseIndexDependency(idxDepName)] *)
Definition depName (spec : string) : string := (parse spec).1.

(** Lines 57-65. *)
Definition dropReplaced (replaced : gset string) (idxDepends : list string)
  : list string :=
  filter (λ idxDepName, depName idxDepName ∉ replaced) idxDepends.

(** Lines 69-75: the scan with [found] and [break]. *)
Fixpoint found (depName : string) (idxDepends : list string) : bool :=
  match idxDepends with
  | [] => false
  | idxDepName :: rest =>
      if decide (idxDepName = depName) then true else found depName rest
  end.

(** Lines 76-79. *)
Definition addIfMissing (idxDepends : list string) (depName : string)
  : list string :=
  if found depName idxDepends then idxDepends else idxDepends ++ [depName].

(** Lines 56-80 as a function of the manifest before them. *)
Definition reconcile (replaced : gset string) (depends : list string)
    (idxDepends : list string) : list string :=
  let idxDepends :=
    if decide (size replaced ≠ 0) then dropReplaced replaced idxDepends
    else idxDepends in
  foldl addIfMissing idxDepends depends.

End Reconcile.

(** The distinct elements of a list in the order of their first
    occurrence. *)
Fixpoint firstSeen (l : list string) : list string :=
  match l with
  | [] => []
  | x :: rest => x :: filter (λ y, y ≠ x) (firstSeen rest)
  end.

(** *** The manager's state *)

Record State (W : Type) : Type := {
  pm : PackageManager;
  world : W;
  calls : list Call
}.
Arguments pm {W} _.
Arguments world {W} _.
Arguments calls {W} _.

Definition called {W} (c : Call) (s : State W) : State W :=
  {| pm := pm s; world := world s; calls := calls s ++ [c] |}.

Definition with_world {W} (w : W) (s : State W) : State W :=
  {| pm := pm s; world := w; calls := calls s |}.

Definition with_pm {W} (p : PackageManager) (s : State W) : State W :=
  {| pm := p; world := world s; calls := calls s |}.

(** A call to a function that reaches only the world. *)
Definition extern {W A} (c : Call) (f : W → W * A) : State W → State W * A :=
  λ s, let '(w, a) := f (world s) in (with_world w (called c s), a).

(** A call to a method of the manager. *)
Definition method {W A} (c : Call)
    (f : PackageManager → W → PackageManager * W * A)
  : State W → State W * A :=
  λ s, let '(p, w, a) := f (pm s) (world s) in
       (with_pm p (with_world w (called c s)), a).

(** *** processInstalledDependencies (lines 223-240) *)

(** Lines 227-234: one transitive dependency of an installed package. *)
Definition rewriteOne `{Collaborators W} (pkgPath dep : string)
  : M (State W) unit :=
  let depSourceName := (ParseIndexDependency dep).1 in
  let* depPkgLock := gets (λ s, lockOf depSourceName (pm s)) in
  wrapf "failed to rewrite dependency links: "
    (check (method (CallRewriteDepLinks pkgPath (AppCode depPkgLock))
              (rewriteDepLinks pkgPath (AppCode depPkgLock)))).

(** Lines 225-237: one installed package. *)
Definition processOne `{Collaborators W} (sourceName : string)
  : M (State W) unit :=
  let* pkgLock := gets (λ s, lockOf sourceName (pm s)) in
  let* dependenciesDir := gets (λ s, DependenciesDir (pm s)) in
  let pkgPath := filepath_Join [dependenciesDir; AppCode pkgLock] in
  let* _ := forEach (Depends pkgLock) (rewriteOne pkgPath) in
  let indexFile := filepath_Join [pkgPath; IndexFileName] in
  wrapf "failed to build cache: "
    (check (extern (CallBuildPackageCache indexFile)
              (BuildPackageCache indexFile))).

Definition processInstalledDependencies `{Collaborators W}
    (installed : list string) : M (State W) unit :=
  forEach installed processOne.

(** *** installDependencies (lines 104-113) *)

Definition installDependencies `{Collaborators W}
    (depends : list string) (replace : bool)
  : M (State W) (list string * gset string) :=
  let* (installed, replaced) :=
    wrapf "failed to download dependencies: "
      (method (CallDownload depends replace) (Download depends replace)) in
  let* _ :=
    wrapf "failed to process installed dependencies: "
      (processInstalledDependencies installed) in
  ret (installed, replaced).

(** *** InstallNewDependencies (lines 49-91) *)

Definition callSaveIndex `{Collaborators W} : M (State W) unit :=
  λ s, check (extern (CallSaveIndex (Package_Index (Package_ (pm s))))
                (SaveIndex (Package_ (pm s)))) s.

Definition callSaveIndexLock `{Collaborators W} : M (State W) unit :=
  λ s, check (extern (CallSaveIndexLock (Package_IndexLock (Package_ (pm s))))
                (SaveIndexLock (Package_ (pm s)))) s.

(** Lines 56-80 on the manager. *)
Definition reconcileManifest `{Collaborators W}
    (replaced : gset string) (depends : list string) (s : State W) : State W :=
  with_pm
    (set_Index_Depends
       (reconcile ParseIndexDependency replaced depends (manifest (pm s)))
       (pm s)) s.

Definition InstallNewDependencies `{Collaborators W}
    (depends : list string) (replace : bool) : M (State W) (list string) :=
  let* (installed, replaced) :=
    wrapf "failed to install dependencies: "
      (installDependencies depends replace) in
  let* _ := modify (reconcileManifest replaced depends) in
  let* _ := wrapf "failed to save index: " callSaveIndex in
  let* _ := wrapf "failed to save index lock: " callSaveIndexLock in
  ret installed.

(** *** InstallIndexDependencies (lines 93-102) *)

Definition InstallIndexDependencies `{Collaborators W}
  : M (State W) (list string) :=
  let* depends := gets (λ s, manifest (pm s)) in
  let* (installed, _) :=
    wrapf "failed to install index dependencies: "
      (installDependencies depends false) in
  let* _ := wrapf "failed to save index lock: " callSaveIndexLock in
  ret installed.

(** A computation that makes no call to [SaveIndex] or [SaveIndexLock]. *)
Definition savesNothing {W A} (c : M (State W) A) : Prop :=
  ∀ s s' r, c s = (s', r) →
    ∃ new, calls s' = calls s ++ new ∧ Forall (λ c, isSave c = false) new.

(** *** Validate (lines 115-139) *)

(** Lines 128-135: one entry of [IndexLock.Packages]. *)
Definition loadDependency `{Collaborators W} (dep : PackageLock)
  : M (State W) unit :=
  let* dependenciesDir := gets (λ s, DependenciesDir (pm s)) in
  let indexFile := filepath_Join [dependenciesDir; AppCode dep; IndexFileName] in
  let* idx :=
    wrapf ("failed to read index file for " +:+ AppCode dep +:+ ": ")
      (extern (CallReadIndexFile indexFile) (ReadIndexFile indexFile)) in
  let cacheFile := filepath_Join [Index_BaseDir idx; MetadataCacheFile] in
  wrapf ("failed to add entities from " +:+ MetadataCacheFile +:+ ": ")
    (check (extern (CallAddFromFile cacheFile) (AddFromFile cacheFile))).

(** Lines 116-126: the validator seeded with the package's entities. *)
Definition prepareValidator `{Collaborators W} : M (State W) unit :=
  let* indexFile := gets (λ s, Index_FilePath (Package_Index (Package_ (pm s)))) in
  let* p :=
    wrapf "failed to parse package: "
      (extern (CallParsePackage indexFile) (ParsePackage indexFile)) in
  let* _ :=
    wrapf "failed to dump cache: " (check (extern CallDumpCache (DumpCache p))) in
  let* _ :=
    modify (λ s, with_world (MakeCtiValidator (world s))
                   (called CallMakeCtiValidator s)) in
  wrapf "failed to add entities: "
    (check (extern CallAddEntities (AddEntities (Total (Registry p))))).

(** The body of [Validate], an early [return []error{err}] being a failure.
    [order] lists the values of [IndexLock.Packages] as the range statement
    of line 127 visits them; Go leaves that order unspecified. *)
Definition validate `{Collaborators W} (order : list PackageLock)
  : M (State W) (list error) :=
  let* _ := prepareValidator in
  let* _ := forEach order loadDependency in
  λ s, let '(s', violations) := extern CallValidateAll ValidateAll s in
       (s', inr violations).

Definition Validate `{Collaborators W} (order : list PackageLock)
  : State W → State W * list error :=
  λ s, match validate order s with
       | (s', inl err) => (s', [err])
       | (s', inr violations) => (s', violations)
       end.

(** *** Pack (lines 141-221) *)

(** The archive under construction: the entries of the zip writer in the
    order they were created; the last one is the entry being written. *)
Record PackState (W : Type) : Type := {
  pk_world : W;
  zipWriter : list (string * bytes)
}.
Arguments pk_world {W} _.
Arguments zipWriter {W} _.

Definition onWorld {W A} (f : W → W * A) : PackState W → PackState W * A :=
  λ s, let '(w, a) := f (pk_world s) in
       ({| pk_world := w; zipWriter := zipWriter s |}, a).

(** [os.OpenFile(name, os.O_RDONLY, 0o644)], with the bytes a later
    [io.Copy] reads from the file. *)
Definition openFile `{Collaborators W} (name : string) : M (PackState W) bytes :=
  λ s, (s, os_OpenFile name (pk_world s)).

(** [zip.NewWriter(archive)] *)
Definition zip_NewWriter {W} : M (PackState W) unit :=
  modify (λ s, {| pk_world := pk_world s; zipWriter := [] |}).

(** [zipWriter.Create(name)] *)
Definition zip_Create `{Collaborators W} (name : string) : M (PackState W) unit :=
  λ s, match zip_Create_error (zipWriter s) name with
       | Some err => (s, inl err)
       | None =>
           ({| pk_world := pk_world s;
               zipWriter := zipWriter s ++ [(name, [])] |}, inr tt)
       end.

Definition appendLast (data : bytes) (entries : list (string * bytes))
  : list (string * bytes) :=
  match reverse entries with
  | [] => []
  | (name, written) :: before => reverse before ++ [(name, written ++ data)]
  end.

(** [w.Write(data)] and [io.Copy(w, file)] on the writer of the last entry.
    What a failed write leaves in the entry is not modelled. *)
Definition zip_Write `{Collaborators W} (data : bytes) : M (PackState W) unit :=
  λ s, match zip_Write_error (zipWriter s) data with
       | Some err => (s, inl err)
       | None =>
           ({| pk_world := pk_world s;
               zipWriter := appendLast data (zipWriter s) |}, inr tt)
       end.

(** Lines 170-185: the closure that copies one asset. *)
Definition bundleAsset `{Collaborators W} (baseDir assetPath : string)
  : M (PackState W) unit :=
  let* asset :=
    wrapf ("failed to open asset " +:+ assetPath +:+ ": ")
      (openFile (filepath_Join [baseDir; assetPath])) in
  let* _ :=
    wrapf ("failed to create asset " +:+ assetPath +:+ " in bundle: ")
      (zip_Create assetPath) in
  wrapf ("failed to write asset " +:+ assetPath +:+ " to bundle: ")
    (zip_Write asset).

(** Lines 161-189: the annotations of one entity's type. *)
Fixpoint scanAnnotations `{Collaborators W} (baseDir : string) (entity : Entity)
    (annotations : list (string * Annotation)) : M (PackState W) unit :=
  match annotations with
  | [] => ret tt
  | (key, annotation) :: rest =>
      match Asset annotation with
      | None => scanAnnotations baseDir entity rest
      | Some _ =>
          let assetPath := GetValue_String key (Values entity) in
          if decide (assetPath = "") then ret tt
          else
            let* _ :=
              wrapf ("failed to bundle asset " +:+ assetPath +:+ ": ")
                (bundleAsset baseDir assetPath) in
            scanAnnotations baseDir entity rest
      end
  end.

(** Lines 156-189: one entity. [order] gives the entries of
    [typ.Annotations] as the range statement of line 161 visits them this
    time. *)
Definition scanEntity `{Collaborators W} (p : ParsedPackage)
    (order : list (string * Annotation) → list (string * Annotation))
    (entity : Entity) : M (PackState W) unit :=
  match Types (Registry p) !! GetParentCti (Cti entity) with
  | None => fail (ErrNew ("type " +:+ Cti entity +:+ " not found"))
  | Some typ =>
      scanAnnotations (Parsed_BaseDir p) entity (order (Annotations typ))
  end.

(** The entries of a list with their positions, counted from [i]. *)
Fixpoint indexFrom {A} (i : nat) (l : list A) : list (nat * A) :=
  match l with
  | [] => []
  | x :: rest => (i, x) :: indexFrom (S i) rest
  end.

(** The body of the loop of line 155 for the instance at position
    [instance.1]: the range over the annotations of its type draws the
    order [visit instance.1]. *)
Definition scanInstance `{Collaborators W} (p : ParsedPackage)
    (visit : nat → list (string * Annotation) → list (string * Annotation))
    (instance : nat * Entity) : M (PackState W) unit :=
  scanEntity p (visit instance.1) instance.2.

(** Lines 204-218: one serialized metadata file. *)
Definition bundleSerialized `{Collaborators W} (baseDir metadata : string)
  : M (PackState W) unit :=
  let* f :=
    wrapf ("failed to open serialized metadata " +:+ metadata +:+ ": ")
      (openFile (filepath_Join [baseDir; metadata])) in
  let* _ :=
    wrapf ("failed to create serialized metadata " +:+ metadata +:+ " in bundle: ")
      (zip_Create metadata) in
  wrapf ("failed to write serialized metadata " +:+ metadata +:+ " to bundle: ")
    (zip_Write f).

(** Modelled from the spec: [Index.Clone] and [Index.PutSerialized],
    methods of the manifest that are not in [pacman.go]. The archive's
    manifest entry is "a clone of the Manifest (tagged to additionally list
    every serialized metadata cache file path)": the clone has the fields of
    the manifest, and tagging lists the path after the paths the manifest
    lists already, unless it is one of them. *)
Definition Index_Clone (idx : Index) : Index :=
  {| Index_FilePath := Index_FilePath idx;
     Index_BaseDir := Index_BaseDir idx;
     Index_Depends := Index_Depends idx;
     Index_Serialized := Index_Serialized idx |}.

Definition Index_PutSerialized (fName : string) (idx : Index) : Index :=
  {| Index_FilePath := Index_FilePath idx;
     Index_BaseDir := Index_BaseDir idx;
     Index_Depends := Index_Depends idx;
     Index_Serialized :=
       if decide (fName ∈ Index_Serialized idx) then Index_Serialized idx
       else Index_Serialized idx ++ [fName] |}.

(** The manifest entry of line 197-198. *)
Definition bundleIndex `{Collaborators W} (pm : PackageManager) : Index :=
  Index_PutSerialized MetadataCacheFile (Index_Clone (Package_Index (Package_ pm))).

(** [visit i] is the order the range statement of line 161 draws for the
    instance at position [i] of the loop of line 155. *)
Definition Pack `{Collaborators W} (pm : PackageManager)
    (visit : nat → list (string * Annotation) → list (string * Annotation))
  : M (PackState W) unit :=
  let* p :=
    wrapf "failed to parse package: "
      (onWorld (ParsePackage (Index_FilePath (Package_Index (Package_ pm))))) in
  let* _ :=
    wrapf "failed to create archive: "
      (check (onWorld (os_Create (filepath_Join [BaseDir pm; BundleName])))) in
  let* _ := zip_NewWriter in
  let* _ :=
    forEach (indexFrom 0 (Instances (Registry p))) (scanInstance p visit) in
  let* _ := wrapf "failed to create index in bundle: " (zip_Create "index.json") in
  let idx := bundleIndex pm in
  let* _ := wrapf "failed to write index to bundle: " (zip_Write (Index_ToBytes idx)) in
  forEach (Index_Serialized idx) (bundleSerialized (Parsed_BaseDir p)).

(** *** What an archive should hold

    The asset paths the scan of an entity discovers: the values of the
    asset-marked fields, in visit order, up to the first empty one. *)
Fixpoint assetPaths `{Collaborators W} (entity : Entity)
    (annotations : list (string * Annotation)) : list string :=
  match annotations with
  | [] => []
  | (key, annotation) :: rest =>
      match Asset annotation with
      | None => assetPaths entity rest
      | Some _ =>
          let assetPath := GetValue_String key (Values entity) in
          if decide (assetPath = "") then []
          else assetPath :: assetPaths entity rest
      end
  end.

Definition entityAssets `{Collaborators W} (p : ParsedPackage)
    (order : list (string * Annotation) → list (string * Annotation))
    (entity : Entity) : list string :=
  match Types (Registry p) !! GetParentCti (Cti entity) with
  | None => []
  | Some typ => assetPaths entity (order (Annotations typ))
  end.

(** The asset paths a run discovers among [instances], each instance with
    the order drawn for it. *)
Definition discoveredAmong `{Collaborators W} (p : ParsedPackage)
    (visit : nat → list (string * Annotation) → list (string * Annotation))
    (instances : list (nat * Entity)) : list string :=
  instance ← instances; entityAssets p (visit instance.1) instance.2.

Definition discovered `{Collaborators W} (p : ParsedPackage)
    (visit : nat → list (string * Annotation) → list (string * Annotation))
  : list string :=
  discoveredAmong p visit (indexFrom 0 (Instances (Registry p))).

(** The file [name] under [baseDir] can be read. *)
Definition readable `{Collaborators W} (w : W) (baseDir name : string) : Prop :=
  ∃ data, os_OpenFile (filepath_Join [baseDir; name]) w = inr data.

(** The archive entry that holds a copy of the file [name] under [baseDir]. *)
Definition copyOf `{Collaborators W} (w : W) (baseDir name : string)
  : string * bytes :=
  (name, match os_OpenFile (filepath_Join [baseDir; name]) w with
         | inr data => data
         | inl _ => []
         end).

(** *** Traces

    The calls that persist the manifest, and the calls that seed the
    validator. *)
Definition isSaveIndex (c : Call) : bool :=
  match c with
  | CallSaveIndex _ => true
  | _ => false
  end.


(** The manifests [ReadIndexFile] was asked for, in order. *)
Definition readIndexFiles (cs : list Call) : list string :=
  omap (λ c, match c with
             | CallReadIndexFile indexFile => Some indexFile
             | _ => None
             end) cs.

(** The calls of lines 116-138: parsing the package, dumping its cache,
    creating the validator and seeding it, reading the manifest of a
    dependency, adding the cache of a dependency, and validating. *)
Definition isValidation (c : Call) : bool :=
  match c with
  | CallParsePackage _ | CallDumpCache | CallMakeCtiValidator | CallAddEntities
  | CallReadIndexFile _ | CallAddFromFile _ | CallValidateAll => true
  | _ => false
  end.

(** A computation that leaves the manager's memory as it is and makes
    calls of the [allowed] kinds only. *)
Definition makesOnly {W A} (allowed : Call → bool) (c : M (State W) A) : Prop :=
  ∀ s s' r, c s = (s', r) →
    pm s' = pm s ∧
    ∃ new, calls s' = calls s ++ new ∧ Forall (λ c, allowed c = true) new.

(** The calls lines 225-237 make for one installed package when none of
    them fails and the manager is [pm] throughout: one link rewrite per
    dependency the package declares, then the rebuild of its cache. *)
Definition postProcessingOf `{Collaborators W} (pm : PackageManager)
    (sourceName : string) : list Call :=
  let pkgLock := lockOf sourceName pm in
  let pkgPath := filepath_Join [DependenciesDir pm; AppCode pkgLock] in
  ((λ dep, CallRewriteDepLinks pkgPath
             (AppCode (lockOf (ParseIndexDependency dep).1 pm)))
     <$> Depends pkgLock)
  ++ [CallBuildPackageCache (filepath_Join [pkgPath; IndexFileName])].

End Pacman.

(** ** pkg/filesys *)

Module Filesys.

(** A cleaned absolute path, as its components from the root: [[]] is the
    root directory. *)
Definition path : Type := list string.

Fixpoint path_string (p : path) : string :=
  match p with
  | [] => ""
  | c :: p' => "/" +:+ c +:+ path_string p'
  end.

(** [strip p q] is [Some rel] when [q] is [p ++ rel]: [q] is [p] or lies
    under it. *)
Fixpoint strip (p q : path) : option path :=
  match p, q with
  | [], _ => Some q
  | _ :: _, [] => None
  | c :: p', d :: q' => if decide (c = d) then strip p' q' else None
  end.

(** [q] is [p] or lies under it. *)
Definition within (p q : path) : bool :=
  match strip p q with
  | Some _ => true
  | None => false
  end.

(** [filepath.Dir] *)
Definition filepath_Dir (p : path) : path := take (length p - 1) p.

(** What a path holds. *)
Inductive node : Type :=
  | File (data : bytes)
  | Dir.

(** The operating system and [github.com/otiai10/copy], over a type [Disk] of
    file-system states. [look] is the observation the postconditions are
    stated with; the other fields are the calls [directory.go] makes. *)
Class OS (Disk : Type) : Type := {
  look : Disk → path → option node;
  os_Stat : path → Disk → option error;
  os_IsNotExist : error → bool;
  os_RemoveAll : path → Disk → Disk * option error;
  os_MkdirAll : path → Disk → Disk * option error;
  os_Rename : path → path → Disk → Disk * option error;
  copy_Copy : path → path → Disk → Disk * option error
}.

(** What those calls have done when they return [nil]. A copy onto an
    existing directory returns [nil] only from a directory, and never into a
    directory of the source's own tree: there it descends into what it has
    just created until a path is too long. *)
Class OSLaws (Disk : Type) `{OS Disk} : Prop := {
  look_root : ∀ fs, look fs [] = Some Dir;
  look_under_missing : ∀ fs p rel, look fs p = None → look fs (p ++ rel) = None;
  Stat_not_exist : ∀ p fs err,
    os_Stat p fs = Some err → os_IsNotExist err = true → look fs p = None;
  RemoveAll_ok : ∀ p fs fs',
    os_RemoveAll p fs = (fs', None) →
    ∀ q, look fs' q = if within p q then None else look fs q;
  MkdirAll_ok : ∀ p fs fs',
    os_MkdirAll p fs = (fs', None) →
    ∀ q, look fs' q = if within q p then Some Dir else look fs q;
  Rename_ok : ∀ src dst fs fs',
    os_Rename src dst fs = (fs', None) →
    look fs src ≠ None ∧
    ((src = dst ∧ ∀ q, look fs' q = look fs q) ∨
     (strip src dst = None ∧ strip dst src = None ∧
      ∀ q, look fs' q =
           match strip dst q with
           | Some rel => look fs (src ++ rel)
           | None => if within src q then None else look fs q
           end));
  Copy_ok : ∀ src dst fs fs',
    copy_Copy src dst fs = (fs', None) →
    look fs dst = Some Dir →
    look fs src = Some Dir ∧
    (within src dst = true → src = dst) ∧
    (strip src dst = None → strip dst src = None →
     ∀ q, look fs' q =
          match strip dst q with
          | Some rel =>
              match look fs (src ++ rel) with
              | Some n => Some n
              | None => look fs q
              end
          | None => look fs q
          end)
}.

(** *** ReplaceWithCopy (lines 13-30) *)

(** Lines 14-20. *)
Definition removeExisting `{OS Disk} (dst : path) : M Disk unit :=
  λ fs, match os_Stat dst fs with
        | None => wrapf "remove existing bundle: " (check (os_RemoveAll dst)) fs
        | Some err =>
            if os_IsNotExist err then (fs, inr tt)
            else (fs, inl (Errorf ("stat " +:+ path_string dst +:+ ": ") err))
        end.

Definition ReplaceWithCopy `{OS Disk} (src dst : path) : M Disk unit :=
  let* _ := removeExisting dst in
  let* _ := wrapf "create parent directory: " (check (os_MkdirAll dst)) in
  wrapf ("copy " +:+ path_string src +:+ " -> " +:+ path_string dst +:+ ": ")
    (check (copy_Copy src dst)).

(** *** ReplaceWithMove (lines 32-45) *)

Definition ReplaceWithMove `{OS Disk} (src dst : path) : M Disk unit :=
  let* _ := wrapf "remove existing dir: " (check (os_RemoveAll dst)) in
  let* _ := wrapf "create directory: " (check (os_MkdirAll (filepath_Dir dst))) in
  wrapf ("move " +:+ path_string src +:+ " -> " +:+ path_string dst +:+ ": ")
    (check (os_Rename src dst)).

(** *** A file system of trees

    An instance of [OS]: directories are finite maps from names to trees.
    Its calls fail where the laws leave no other choice and in a few more
    cases, listed at each definition. *)

#[warnings="-register-all"]
Inductive tree : Type :=
  | TFile (data : bytes)
  | TDir (children : gmap string tree).

Definition node_of (t : tree) : node :=
  match t with
  | TFile data => File data
  | TDir _ => Dir
  end.

Fixpoint subtree (t : tree) (p : path) : option tree :=
  match p with
  | [] => Some t
  | c :: p' =>
      match t with
      | TFile _ => None
      | TDir m =>
          match m !! c with
          | Some t' => subtree t' p'
          | None => None
          end
      end
  end.

(** The root is a directory whatever the tree says. *)
Definition tree_look (t : tree) (p : path) : option node :=
  match p with
  | [] => Some Dir
  | _ => node_of <$> subtree t p
  end.

(** Remove the subtree at [p], if any. *)
Fixpoint prune (p : path) (t : tree) : tree :=
  match p with
  | [] => t
  | c :: p' =>
      match t with
      | TFile _ => t
      | TDir m =>
          match p' with
          | [] => TDir (delete c m)
          | _ => TDir (alter (prune p') c m)
          end
      end
  end.

(** Put [new] at [p]; the directories above [p] are created when missing. *)
Fixpoint graft (p : path) (new : tree) (t : tree) : tree :=
  match p with
  | [] => new
  | c :: p' =>
      match t with
      | TFile _ => t
      | TDir m => TDir (<[c := graft p' new (default (TDir ∅) (m !! c))]> m)
      end
  end.

(** Create the directories of [p]; [None] when a component is a file. *)
Fixpoint mkdirs (p : path) (t : tree) : option tree :=
  match p with
  | [] => match t with TDir _ => Some t | TFile _ => None end
  | c :: p' =>
      match t with
      | TFile _ => None
      | TDir m =>
          match mkdirs p' (default (TDir ∅) (m !! c)) with
          | Some t' => Some (TDir (<[c := t']> m))
          | None => None
          end
      end
  end.

Definition ErrNotExist : error := ErrNew "file does not exist".
Definition ErrExist : error := ErrNew "file exists".
Definition ErrNotDir : error := ErrNew "not a directory".
Definition ErrBusy : error := ErrNew "device or resource busy".
Definition ErrInvalid : error := ErrNew "invalid argument".

(** A state is a tree whose root is a directory, else every call fails. *)
Definition rooted (t : tree) : bool :=
  match t with
  | TDir _ => true
  | TFile _ => false
  end.

Definition tree_Stat (p : path) (t : tree) : option error :=
  match tree_look t p with
  | Some _ => None
  | None => Some ErrNotExist
  end.

Definition tree_IsNotExist (e : error) : bool :=
  bool_decide (Error e = Error ErrNotExist).

(** Fails on the root. *)
Definition tree_RemoveAll (p : path) (t : tree) : tree * option error :=
  match p with
  | [] => (t, Some ErrBusy)
  | _ => (prune p t, None)
  end.

Definition tree_MkdirAll (p : path) (t : tree) : tree * option error :=
  match mkdirs p t with
  | Some t' => (t', None)
  | None => (t, Some ErrNotDir)
  end.

Definition overlap (p q : path) : bool := within p q || within q p.

(** Fails when [src] is missing, when one path lies under the other, when
    [dst] exists, and when the directory of [dst] is missing. *)
Definition tree_Rename (src dst : path) (t : tree) : tree * option error :=
  match tree_look t src, subtree t src with
  | Some _, Some s =>
      if decide (src = dst) then (t, None)
      else if overlap src dst then (t, Some ErrInvalid)
      else
        match tree_look t dst, tree_look t (filepath_Dir dst) with
        | Some _, _ => (t, Some ErrExist)
        | None, Some Dir => (graft dst s (prune src t), None)
        | None, _ => (t, Some ErrNotExist)
        end
  | _, _ => (t, Some ErrNotExist)
  end.

(** Copies a directory onto an empty directory, and an empty directory onto
    itself; fails otherwise. *)
Definition tree_Copy (src dst : path) (t : tree) : tree * option error :=
  match subtree t src, subtree t dst with
  | Some (TDir m), Some (TDir d) =>
      if decide (src = dst) then
        if decide (size m = 0) then (t, None) else (t, Some ErrInvalid)
      else if overlap src dst then (t, Some ErrInvalid)
      else if decide (size d = 0) then
        match dst with
        | [] => (t, Some ErrInvalid)
        | _ => (graft dst (TDir m) t, None)
        end
      else (t, Some ErrExist)
  | Some (TFile _), Some (TDir _) => (t, Some (ErrNew "is a directory"))
  | None, _ => (t, Some ErrNotExist)
  | _, _ => (t, Some ErrInvalid)
  end.

#[export] Instance tree_OS : OS tree := {|
  look := tree_look;
  os_Stat := tree_Stat;
  os_IsNotExist := tree_IsNotExist;
  os_RemoveAll := tree_RemoveAll;
  os_MkdirAll := tree_MkdirAll;
  os_Rename := tree_Rename;
  copy_Copy := tree_Copy
|}.

(** A disk for the examples: [/src/f] and [/dst/old] are files. *)
Definition sample : tree :=
  TDir {[ "src" := TDir {[ "f" := TFile (String.list_byte_of_string "hello") ]};
          "dst" := TDir {[ "old" := TFile (String.list_byte_of_string "bye") ]} ]}.

End Filesys.

(** ** pkg/bundle *)

Module Bundle.

Record Index : Type := {
  AppCode : string;
  RamlxVersion : string;
  Entities : list string;
  Dictionaries : list string
}.

Record Bundle : Type := {
  Index_ : Index;
  BaseDir : string
}.

(** What [GetDictionaries] relies on and [bundle.go] does not define: the
    type [Entry], [os.Open], [path.Join], [filesys.GetBaseName] and the JSON
    decoder. [os_Open name] gives the bytes the returned file reads; the
    file's [Name()] is [name]. *)
Class Collaborators (Entry : Type) : Type := {
  os_Open : string → error + bytes;
  path_Join : list string → string;
  GetBaseName : string → string;
  json_Decode : bytes → error + Entry
}.

(** The struct [Dictionaries]; [None] is the nil map of its zero value. *)
Record Dictionaries_ (Entry : Type) : Type := {
  Dictionaries_map : option (gmap string Entry)
}.
Arguments Dictionaries_map {Entry} _.

Definition Dictionaries_zero {Entry} : Dictionaries_ Entry :=
  {| Dictionaries_map := None |}.

(** *** validateDictionary (lines 117-126) *)

Definition validateDictionary `{Collaborators Entry} (input : bytes)
  : error + Entry :=
  match json_Decode input with
  | inl err => inl (Errorf "decode dictionary: " err)
  | inr config => inr config
  end.

(** *** GetDictionaries (lines 94-115) *)

(** Lines 99-112, [dictionaries] being the map filled so far. *)
Fixpoint readDictionaries `{Collaborators Entry} (baseDir : string)
    (dicts : list string) (dictionaries : gmap string Entry)
  : error + gmap string Entry :=
  match dicts with
  | [] => inr dictionaries
  | dict :: rest =>
      let name := path_Join [baseDir; dict] in
      match os_Open name with
      | inl err => inl (Errorf "open dictionary file: " err)
      | inr file =>
          match validateDictionary file with
          | inl err => inl (Errorf "validate dictionary: " err)
          | inr entry =>
              let lang := GetBaseName name in
              readDictionaries baseDir rest (<[lang := entry]> dictionaries)
          end
      end
  end.

(** The key under which the dictionary file [dict] is stored: lines 100
    and 110. *)
Definition lang `{Collaborators Entry} (baseDir dict : string) : string :=
  GetBaseName (path_Join [baseDir; dict]).

(** The file [dict] opens and decodes to [entry]. *)
Definition decodes `{Collaborators Entry} (baseDir dict : string)
    (entry : Entry) : Prop :=
  ∃ file, os_Open (path_Join [baseDir; dict]) = inr file ∧
          json_Decode file = inr entry.

Definition GetDictionaries `{Collaborators Entry} (b : Bundle)
  : Dictionaries_ Entry * option error :=
  match readDictionaries (BaseDir b) (Dictionaries (Index_ b)) ∅ with
  | inl err => (Dictionaries_zero, Some err)
  | inr dictionaries => ({| Dictionaries_map := Some dictionaries |}, None)
  end.

End Bundle.

(** ** pkg/bundle: the struct, [New] and [Read] (lines 14-78) *)

Module BundleStruct.

(** The lock as [New] fills it in. [Info], the registry, [IndexLockVersion],
    [ReadIndex] and [ReadIndexLock] are not defined in [bundle.go]. *)
Record IndexLock (Info : Type) : Type := {
  Version : string;
  DependentBundles : gmap string string;
  SourceInfo : gmap string Info
}.
Arguments Version {Info} _.
Arguments DependentBundles {Info} _.
Arguments SourceInfo {Info} _.

(** Lines 14-21; [None] in [Registry] is the nil pointer. *)
Record Bundle (Info CtiRegistry : Type) : Type := {
  Index_ : Bundle.Index;
  IndexLock_ : IndexLock Info;
  Registry : option CtiRegistry;
  BaseDir : string
}.
Arguments Index_ {Info CtiRegistry} _.
Arguments IndexLock_ {Info CtiRegistry} _.
Arguments Registry {Info CtiRegistry} _.
Arguments BaseDir {Info CtiRegistry} _.

Class Collaborators (Info : Type) : Type := {
  IndexLockVersion : string;
  ReadIndex : string → error + Bundle.Index;
  ReadIndexLock : string → error + IndexLock Info
}.

(** The options of lines 45-63, as values; [WithEntities None] is
    [WithEntities(nil)]. *)
Inductive InitializeOption : Type :=
  | WithAppCode (appCode : string)
  | WithRamlxVersion (version : string)
  | WithEntities (entities : option (list string)).

(** The fields of [Bundle.Index] that [bundle.go] assigns. *)
Definition set_AppCode (appCode : string) (i : Bundle.Index) : Bundle.Index :=
  {| Bundle.AppCode := appCode;
     Bundle.RamlxVersion := Bundle.RamlxVersion i;
     Bundle.Entities := Bundle.Entities i;
     Bundle.Dictionaries := Bundle.Dictionaries i |}.

Definition set_RamlxVersion (version : string) (i : Bundle.Index)
  : Bundle.Index :=
  {| Bundle.AppCode := Bundle.AppCode i;
     Bundle.RamlxVersion := version;
     Bundle.Entities := Bundle.Entities i;
     Bundle.Dictionaries := Bundle.Dictionaries i |}.

Definition set_Entities (entities : list string) (i : Bundle.Index)
  : Bundle.Index :=
  {| Bundle.AppCode := Bundle.AppCode i;
     Bundle.RamlxVersion := Bundle.RamlxVersion i;
     Bundle.Entities := entities;
     Bundle.Dictionaries := Bundle.Dictionaries i |}.

Section Struct.

Context {Info CtiRegistry : Type}.

Definition set_Index (f : Bundle.Index → Bundle.Index)
    (b : Bundle Info CtiRegistry) : Bundle Info CtiRegistry :=
  {| Index_ := f (Index_ b); IndexLock_ := IndexLock_ b;
     Registry := Registry b; BaseDir := BaseDir b |}.

(** What calling the option on [b] does: lines 46-49, 53-55 and 58-62. *)
Definition call (opt : InitializeOption) (b : Bundle Info CtiRegistry)
  : Bundle Info CtiRegistry :=
  match opt with
  | WithAppCode appCode => set_Index (set_AppCode appCode) b
  | WithRamlxVersion version => set_Index (set_RamlxVersion version) b
  | WithEntities (Some entities) => set_Index (set_Entities entities) b
  | WithEntities None => b
  end.

(** Lines 26-34: the zero [Index], a lock with the version and two empty
    maps, no registry. *)
Definition fresh `{Collaborators Info} (path : string)
  : Bundle Info CtiRegistry :=
  {| Index_ := {| Bundle.AppCode := ""; Bundle.RamlxVersion := "";
                  Bundle.Entities := []; Bundle.Dictionaries := [] |};
     IndexLock_ := {| Version := IndexLockVersion; DependentBundles := ∅;
                      SourceInfo := ∅ |};
     Registry := None;
     BaseDir := path |}.

(** Lines 25-41. *)
Definition New `{Collaborators Info} (path : string)
    (options : list InitializeOption) : Bundle Info CtiRegistry :=
  foldl (λ b opt, call opt b) (fresh path) options.

(** Lines 65-78. *)
Definition Read `{Collaborators Info} (b : Bundle Info CtiRegistry)
  : Bundle Info CtiRegistry * option error :=
  match ReadIndex (BaseDir b) with
  | inl err => (b, Some (Errorf "read index file: " err))
  | inr idx =>
      match ReadIndexLock (BaseDir b) with
      | inl err => (b, Some (Errorf "read index lock: " err))
      | inr idxLock =>
          ({| Index_ := idx; IndexLock_ := idxLock; Registry := Registry b;
              BaseDir := BaseDir b |}, None)
      end
  end.

(** The fields [GetDictionaries] reads. *)
Definition dictionarySource (b : Bundle Info CtiRegistry) : Bundle.Bundle :=
  {| Bundle.Index_ := Index_ b; Bundle.BaseDir := BaseDir b |}.

End Struct.

(** What an option asks for, if anything. *)
Definition appCodeOf (opt : InitializeOption) : option string :=
  match opt with
  | WithAppCode appCode => Some appCode
  | _ => None
  end.

Definition ramlxVersionOf (opt : InitializeOption) : option string :=
  match opt with
  | WithRamlxVersion version => Some version
  | _ => None
  end.

Definition entitiesOf (opt : InitializeOption) : option (list string) :=
  match opt with
  | WithEntities entities => entities
  | _ => None
  end.

End BundleStruct.

(** ** A simulated world for the examples *)

Module Examples.
Import Pacman.

(** Modelled from the spec: [ParseIndexDependency], which is not in
    [pacman.go]. A spec is [name] or [name@version]; parsing is permissive
    and yields an empty version when there is none. *)
Fixpoint cut (sep : Ascii.ascii) (s : string) : string * string :=
  match s with
  | EmptyString => (EmptyString, EmptyString)
  | String c s' =>
      if decide (c = sep) then (EmptyString, s')
      else let '(name, version) := cut sep s' in (String c name, version)
  end.

Definition at_sign : Ascii.ascii := Ascii.ascii_of_nat 64.
Definition tilde : Ascii.ascii := Ascii.ascii_of_nat 126.

Record Sim : Type := {
  offline : bool;
  broken : list string;
  indexes : list (string * Index);
  parsed : option ParsedPackage;
  files : list (string * bytes)
}.

Fixpoint assoc {A} (k : string) (l : list (string * A)) : option A :=
  match l with
  | [] => None
  | (k', a) :: rest => if decide (k' = k) then Some a else assoc k rest
  end.

Definition set_Packages (packages : gmap string PackageLock)
    (pm : PackageManager) : PackageManager :=
  let pkg := Package_ pm in
  {| Package_ :=
       {| Package_Index := Package_Index pkg;
          Package_IndexLock := {| Packages := packages |};
          Package_BaseDir := Package_BaseDir pkg |};
     PackageCacheDir := PackageCacheDir pm;
     DependenciesDir := DependenciesDir pm;
     BaseDir := BaseDir pm |}.

Definition locked (pm : PackageManager) : gmap string PackageLock :=
  Packages (Package_IndexLock (Package_ pm)).

(** A resolver: it locks every requested name under that name and, with
    [replace], reports the requested names that were locked before. *)
Definition sim_Download (depends : list string) (replace : bool)
    (pm : PackageManager) (w : Sim)
  : PackageManager * Sim * (error + (list string * gset string)) :=
  if offline w then (pm, w, inl (ErrNew "network is unreachable"))
  else
    let sources := (λ dep, (cut at_sign dep).1) <$> depends in
    let packages :=
      foldl (λ m name, <[name := {| AppCode := name; Depends := [] |}]> m)
        (locked pm) sources in
    let replaced : gset string :=
      if replace
      then list_to_set (filter (λ name, is_Some (locked pm !! name)) sources)
      else ∅ in
    (set_Packages packages pm, w, inr (sources, replaced)).

Definition failing (msg : string) (w : Sim) (file : string) : option error :=
  if bool_decide (file ∈ broken w) then Some (ErrNew msg) else None.

#[export] Instance sim : Collaborators Sim := {|
  ParseIndexDependency := cut at_sign;
  filepath_Join := String.concat "/";
  IndexFileName := "index.json";
  MetadataCacheFile := ".cache.json";
  Download := sim_Download;
  rewriteDepLinks := λ pkgPath _ pm w,
    (pm, w, failing "permission denied" w pkgPath);
  BuildPackageCache := λ indexFile w,
    (w, failing "unexpected end of JSON input" w indexFile);
  SaveIndex := λ _ w, (w, None);
  SaveIndexLock := λ _ w, (w, None);
  ParsePackage := λ _ w,
    (w, match parsed w with
        | Some p => inr p
        | None => inl (ErrNew "invalid package")
        end);
  DumpCache := λ _ w, (w, None);
  MakeCtiValidator := λ w, w;
  AddEntities := λ _ w, (w, None);
  ReadIndexFile := λ indexFile w,
    (w, match assoc indexFile (indexes w) with
        | Some idx => inr idx
        | None => inl (ErrNew "no such file or directory")
        end);
  AddFromFile := λ cacheFile w,
    (w, failing "unexpected end of JSON input" w cacheFile);
  ValidateAll := λ w, (w, []);
  GetParentCti := λ cti, (cut tilde cti).1;
  GetValue_String := λ key values,
    if decide (key = "icon") then String.string_of_list_byte values else "";
  Index_ToBytes := λ idx, String.list_byte_of_string (String.concat "," (Index_Depends idx));
  os_Create := λ _ w, (w, None);
  os_OpenFile := λ name w,
    match assoc name (files w) with
    | Some data => inr data
    | None => inl (ErrNew "no such file or directory")
    end;
  zip_Create_error := λ _ _, None;
  zip_Write_error := λ _ _, None
|}.

Definition quiet : Sim :=
  {| offline := false; broken := []; indexes := []; parsed := None; files := [] |}.

Definition manager (depends : list string) (packages : gmap string PackageLock)
  : PackageManager :=
  {| Package_ :=
       {| Package_Index :=
            {| Index_FilePath := "pkg/index.json";
               Index_BaseDir := "pkg";
               Index_Depends := depends;
               Index_Serialized := [] |};
          Package_IndexLock := {| Packages := packages |};
          Package_BaseDir := "pkg" |};
     PackageCacheDir := "cache";
     DependenciesDir := "pkg/.dep";
     BaseDir := "pkg" |}.

Definition start (depends : list string) (packages : gmap string PackageLock)
    (w : Sim) : State Sim :=
  {| pm := manager depends packages; world := w; calls := [] |}.

Definition lockA : gmap string PackageLock :=
  {[ "A" := {| AppCode := "A"; Depends := [] |} ]}.

(** [A@1] and [B@1] are declared and locked is [A]; [A@2] replaces it. *)
Definition beforeReplace : State Sim := start ["A@1"; "B@1"] lockA quiet.

(** [A@1] is declared; [A@2] is requested without [replace]. *)
Definition beforeAppend : State Sim := start ["A@1"] lockA quiet.

(** The resolver cannot reach the network. *)
Definition beforeOffline : State Sim :=
  start ["A@1"] lockA
    {| offline := true; broken := []; indexes := []; parsed := None; files := [] |}.

Definition lockLib : gmap string PackageLock :=
  {[ "lib" := {| AppCode := "lib-1.0"; Depends := [] |} ]}.


Definition emptyPackage : ParsedPackage :=
  {| Registry := {| Types := ∅; Instances := []; Total := ∅ |};
     Parsed_BaseDir := "pkg" |}.

Definition libIndex : Index :=
  {| Index_FilePath := "pkg/.dep/lib-1.0/index.json";
     Index_BaseDir := "pkg/.dep/lib-1.0";
     Index_Depends := [];
     Index_Serialized := [] |}.

(** [lib] is locked as [lib-1.0]; its metadata cache is truncated. *)
Definition beforeValidate : State Sim :=
  start ["lib@1"] lockLib
    {| offline := false; broken := ["pkg/.dep/lib-1.0/.cache.json"];
       indexes := [("pkg/.dep/lib-1.0/index.json", libIndex)];
       parsed := Some emptyPackage; files := [] |}.

(** The world of [sim] on a disk where the manifest cannot be written. *)
Definition readOnly : Collaborators Sim := {|
  ParseIndexDependency := ParseIndexDependency (Collaborators := sim);
  filepath_Join := filepath_Join (Collaborators := sim);
  IndexFileName := IndexFileName (Collaborators := sim);
  MetadataCacheFile := MetadataCacheFile (Collaborators := sim);
  Download := Download (Collaborators := sim);
  rewriteDepLinks := rewriteDepLinks (Collaborators := sim);
  BuildPackageCache := BuildPackageCache (Collaborators := sim);
  SaveIndex := λ _ w, (w, Some (ErrNew "read-only file system"));
  SaveIndexLock := SaveIndexLock (Collaborators := sim);
  ParsePackage := ParsePackage (Collaborators := sim);
  DumpCache := DumpCache (Collaborators := sim);
  MakeCtiValidator := MakeCtiValidator (Collaborators := sim);
  AddEntities := AddEntities (Collaborators := sim);
  ReadIndexFile := ReadIndexFile (Collaborators := sim);
  AddFromFile := AddFromFile (Collaborators := sim);
  ValidateAll := ValidateAll (Collaborators := sim);
  GetParentCti := GetParentCti (Collaborators := sim);
  GetValue_String := GetValue_String (Collaborators := sim);
  Index_ToBytes := Index_ToBytes (Collaborators := sim);
  os_Create := os_Create (Collaborators := sim);
  os_OpenFile := os_OpenFile (Collaborators := sim);
  zip_Create_error := zip_Create_error (Collaborators := sim);
  zip_Write_error := zip_Write_error (Collaborators := sim)
|}.

(** [app] is installed as [app-2.0] and declares [lib@1] and [core]; both
    are locked. *)
Definition lockApp : gmap string PackageLock :=
  {[ "app" := {| AppCode := "app-2.0"; Depends := ["lib@1"; "core"] |};
     "lib" := {| AppCode := "lib-1.0"; Depends := [] |};
     "core" := {| AppCode := "core-3.1"; Depends := [] |} ]}.

Definition afterDownload : State Sim := start ["app@2"] lockApp quiet.

(** [lib] is locked as [lib-1.0]; its manifest was never unpacked. *)
Definition beforeValidateNoIndex : State Sim :=
  start ["lib@1"] lockLib
    {| offline := false; broken := []; indexes := [];
       parsed := Some emptyPackage; files := [] |}.

(** [lib] is locked, its manifest and its cache are in place. *)
Definition beforeValidateOk : State Sim :=
  start ["lib@1"] lockLib
    {| offline := false; broken := [];
       indexes := [("pkg/.dep/lib-1.0/index.json", libIndex)];
       parsed := Some emptyPackage; files := [] |}.

Definition plain : Annotation := {| Asset := None |}.
Definition asset : Annotation := {| Asset := Some true |}.

(** Every range visits the entries as they are listed. *)
Definition asListed (_ : nat) (annotations : list (string * Annotation))
  : list (string * Annotation) := annotations.

(** The ranges at even positions visit the entries as they are listed, the
    others from the last to the first. *)
Definition alternating (i : nat) (annotations : list (string * Annotation))
  : list (string * Annotation) :=
  if Nat.even i then annotations else reverse annotations.

(** A type whose [icon] field is an asset, listed before its [logo]. *)
Definition widgetType : Entity :=
  {| Cti := "cti.a.p.widget.v1.0"; Values := [];
     Annotations := [("title", plain); ("icon", asset); ("logo", asset)] |}.

(** A type whose [logo] field, always empty here, is listed before [icon]. *)
Definition badgeType : Entity :=
  {| Cti := "cti.a.p.badge.v1.0"; Values := [];
     Annotations := [("title", plain); ("logo", asset); ("icon", asset)] |}.

Definition widget : Entity :=
  {| Cti := "cti.a.p.widget.v1.0~a.p.clock.v1.0";
     Values := String.list_byte_of_string "assets/clock.png";
     Annotations := [] |}.

Definition badge : Entity :=
  {| Cti := "cti.a.p.badge.v1.0~a.p.gold.v1.0";
     Values := String.list_byte_of_string "assets/gold.png";
     Annotations := [] |}.

Definition shop : ParsedPackage :=
  {| Registry :=
       {| Types := {[ "cti.a.p.widget.v1.0" := widgetType;
                      "cti.a.p.badge.v1.0" := badgeType ]};
          Instances := [badge; widget];
          Total := ∅ |};
     Parsed_BaseDir := "pkg" |}.

Definition shopWorld : Sim :=
  {| offline := false; broken := []; indexes := []; parsed := Some shop;
     files := [("pkg/assets/clock.png", String.list_byte_of_string "PNG clock");
               ("pkg/assets/gold.png", String.list_byte_of_string "PNG gold");
               ("pkg/.cache.json", String.list_byte_of_string "{}")] |}.

Definition beforePack : PackState Sim :=
  {| pk_world := shopWorld; zipWriter := [("stale", [])] |}.

(** Two instances of one type. *)
Definition clocks : ParsedPackage :=
  {| Registry :=
       {| Types := {[ "cti.a.p.widget.v1.0" := widgetType ]};
          Instances :=
            [widget;
             {| Cti := "cti.a.p.widget.v1.0~a.p.tower.v1.0";
                Values := String.list_byte_of_string "assets/gold.png";
                Annotations := [] |}];
          Total := ∅ |};
     Parsed_BaseDir := "pkg" |}.

Definition beforePackClocks : PackState Sim :=
  {| pk_world :=
       {| offline := false; broken := []; indexes := []; parsed := Some clocks;
          files := files shopWorld |};
     zipWriter := [] |}.

(** An instance whose type the registry does not hold. *)
Definition orphan : Entity :=
  {| Cti := "cti.a.p.gadget.v1.0~a.p.lamp.v1.0";
     Values := String.list_byte_of_string "assets/lamp.png";
     Annotations := [] |}.

Definition orphanShop : ParsedPackage :=
  {| Registry :=
       {| Types := {[ "cti.a.p.widget.v1.0" := widgetType ]};
          Instances := [widget; orphan; widget];
          Total := ∅ |};
     Parsed_BaseDir := "pkg" |}.

Definition beforePackOrphan : PackState Sim :=
  {| pk_world :=
       {| offline := false; broken := []; indexes := [];
          parsed := Some orphanShop;
          files := [("pkg/assets/clock.png",
                     String.list_byte_of_string "PNG clock")] |};
     zipWriter := [] |}.

(** The shop on a disk where the clock's icon is missing. *)
Definition beforeScanNoClock : PackState Sim :=
  {| pk_world :=
       {| offline := false; broken := []; indexes := []; parsed := Some shop;
          files := [("pkg/.cache.json", String.list_byte_of_string "{}")] |};
     zipWriter := [] |}.

End Examples.

Module BundleExamples.
Import Bundle.

Definition slash : Ascii.ascii := Ascii.ascii_of_nat 47.
Definition dot : Ascii.ascii := Ascii.ascii_of_nat 46.

Fixpoint has (sep : Ascii.ascii) (s : string) : bool :=
  match s with
  | EmptyString => false
  | String c s' => if decide (c = sep) then true else has sep s'
  end.

(** What follows the last [sep] of [s]. *)
Fixpoint afterLast (sep : Ascii.ascii) (s : string) : string :=
  match s with
  | EmptyString => EmptyString
  | String c s' => if has sep s then afterLast sep s' else s
  end.

(** A decoder for the examples: an entry is the text of a non-empty file. *)
#[export] Instance files : Collaborators string := {|
  os_Open := λ name,
    match Examples.assoc name
            [("app/i18n/en.json", String.list_byte_of_string "hello");
             ("app/i18n/fr.json", String.list_byte_of_string "bonjour");
             ("app/legacy/en.json", String.list_byte_of_string "howdy");
             ("app/i18n/xx.json", [])] with
    | Some data => inr data
    | None => inl (ErrNew "no such file or directory")
    end;
  path_Join := String.concat "/";
  GetBaseName := λ name, (Examples.cut dot (afterLast slash name)).1;
  json_Decode := λ data,
    match data with
    | [] => inl (ErrNew "EOF")
    | _ => inr (String.string_of_list_byte data)
    end
|}.

Definition app (dictionaries : list string) : Bundle :=
  {| Index_ := {| AppCode := "app"; RamlxVersion := "1.0"; Entities := [];
                  Dictionaries := dictionaries |};
     BaseDir := "app" |}.

End BundleExamples.

Module BundleStructExamples.
Import BundleStruct.

Definition appIndex : Bundle.Index :=
  {| Bundle.AppCode := "app"; Bundle.RamlxVersion := "1.0";
     Bundle.Entities := ["types.raml"]; Bundle.Dictionaries := ["i18n/en.json"] |}.

Definition appLock : IndexLock unit :=
  {| Version := "v1"; DependentBundles := {[ "lib" := "1.2.0" ]};
     SourceInfo := ∅ |}.

(** The directory [app] holds an index and a lock, [draft] an index only. *)
#[export] Instance store : Collaborators unit := {|
  IndexLockVersion := "v1";
  ReadIndex := λ dir,
    if decide (dir = "app") then inr appIndex
    else if decide (dir = "draft") then inr appIndex
    else inl (ErrNew "no such file or directory");
  ReadIndexLock := λ dir,
    if decide (dir = "app") then inr appLock
    else inl (ErrNew "no such file or directory")
|}.

Definition bundleAt (dir : string) : Bundle unit unit := New dir [].

End BundleStructExamples.

(** * Properties *)

(** ** Messages *)

Lemma append_assoc (s t u : string) : (s +:+ t) +:+ u = s +:+ (t +:+ u).
Proof.
  induction s as [|c s IH]; [done |].
  change (String c ((s +:+ t) +:+ u) = String c (s +:+ (t +:+ u))). by f_equal.
Qed.

Lemma prefix_append (s t : string) : String.prefix s (s +:+ t) = true.
Proof.
  induction s as [|c s IH]; simpl.
  - by destruct t.
  - destruct (Ascii.ascii_dec c c); [done | congruence].
Qed.

Lemma strings_Contains_unfold (s sub : string) :
  strings_Contains s sub =
  if String.prefix sub s then true
  else match s with
       | EmptyString => false
       | String _ s' => strings_Contains s' sub
       end.
Proof. by destruct s. Qed.

Lemma strings_Contains_here (s t : string) : strings_Contains (s +:+ t) s = true.
Proof. by rewrite strings_Contains_unfold, prefix_append. Qed.

Lemma strings_Contains_append (pre s sub : string) :
  strings_Contains s sub = true → strings_Contains (pre +:+ s) sub = true.
Proof.
  intros Hs. induction pre as [|c pre IH]; [done |].
  rewrite strings_Contains_unfold.
  destruct (String.prefix sub _); [done | exact IH].
Qed.

(** An error built with [fmt.Errorf("... %s: %w", who, err)] names [who]. *)
Lemma names_Errorf (pre who post : string) (cause : error) :
  names (Errorf (pre +:+ who +:+ post) cause) who.
Proof.
  unfold names. simpl.
  rewrite !append_assoc.
  apply strings_Contains_append, strings_Contains_here.
Qed.

(** ** Sequencing *)

Lemma forEach_app {S A} (pre post : list A) (body : A → M S unit) (s : S) :
  forEach (pre ++ post) body s =
  match forEach pre body s with
  | (s', inl e) => (s', inl e)
  | (s', inr _) => forEach post body s'
  end.
Proof.
  revert s. induction pre as [|x pre IH]; intros s; simpl; [done |].
  unfold bind. destruct (body x s) as [s1 [e|[]]]; [done | apply IH].
Qed.

(** Fail fast: once the body fails on an element the loop returns that
    error in the state the body left; what follows the element is not run. *)
Lemma forEach_abort {S A} (pre post : list A) (x : A) (body : A → M S unit)
    (s s1 s2 : S) (e : error) :
  forEach pre body s = (s1, inr tt) →
  body x s1 = (s2, inl e) →
  forEach (pre ++ x :: post) body s = (s2, inl e).
Proof.
  intros Hpre Hx. rewrite forEach_app, Hpre. simpl. unfold bind. by rewrite Hx.
Qed.

(** ** The installer: reconciling the manifest *)

Section ReconcileFacts.

Import Pacman.

Lemma found_elem_of (d : string) (l : list string) : found d l = true ↔ d ∈ l.
Proof.
  induction l as [|x l IH]; simpl.
  - split; [done | by intros ?%elem_of_nil].
  - rewrite elem_of_cons. destruct (decide (x = d)) as [->|Hne].
    + split; auto.
    + rewrite IH. split; [auto | by intros [->|?]].
Qed.

Lemma addIfMissing_old (l : list string) (d : string) :
  d ∈ l → addIfMissing l d = l.
Proof. intros Hd%found_elem_of. unfold addIfMissing. by rewrite Hd. Qed.

Lemma addIfMissing_new (l : list string) (d : string) :
  d ∉ l → addIfMissing l d = l ++ [d].
Proof.
  intros Hd. unfold addIfMissing.
  destruct (found d l) eqn:E; [by apply found_elem_of in E | done].
Qed.

Lemma filter_twice {A} (P Q : A → Prop) `{∀ x, Decision (P x)}
    `{∀ x, Decision (Q x)} (l : list A) :
  filter P (filter Q l) = filter Q (filter P l).
Proof.
  induction l as [|x l IH]; [done |].
  destruct (decide (P x)), (decide (Q x));
    repeat (first [ rewrite filter_cons_True by done
                  | rewrite filter_cons_False by done ]);
    by rewrite ?IH.
Qed.

Lemma filter_ext_in {A} (P Q : A → Prop) `{∀ x, Decision (P x)}
    `{∀ x, Decision (Q x)} (l : list A) :
  (∀ x, x ∈ l → P x ↔ Q x) → filter P l = filter Q l.
Proof.
  induction l as [|x l IH]; intros HPQ; [done |].
  assert (filter P l = filter Q l) as Hl
    by (apply IH; intros y Hy; apply HPQ; by right).
  destruct (decide (P x)) as [HP|HP].
  - rewrite !filter_cons_True; [by rewrite Hl | | done].
    apply HPQ; [by left | done].
  - rewrite !filter_cons_False; [done | | done].
    intros HQ. apply HP, HPQ; [by left | done].
Qed.

Lemma filter_none {A} (P : A → Prop) `{∀ x, Decision (P x)} (l : list A) :
  (∀ x, x ∈ l → ¬ P x) → filter P l = [].
Proof.
  induction l as [|x l IH]; intros Hl; [done |].
  rewrite filter_cons_False by (apply Hl; by left).
  apply IH. intros y Hy. apply Hl. by right.
Qed.

Lemma firstSeen_filter (P : string → Prop) `{∀ x, Decision (P x)}
    (l : list string) :
  firstSeen (filter P l) = filter P (firstSeen l).
Proof.
  induction l as [|x l IH]; [done |]. simpl.
  destruct (decide (P x)) as [HP|HP].
  - rewrite !filter_cons_True by done. simpl. rewrite IH.
    f_equal. apply filter_twice.
  - rewrite !filter_cons_False by done. rewrite IH, list_filter_filter.
    apply filter_ext_in. intros y _. split; [| tauto].
    intros Hy. split; [done | by intros ->].
Qed.

(** Lines 68-80 append the requested specs that are not in the list yet,
    each once, in the order they are first requested. *)
Lemma foldl_addIfMissing (depends idx : list string) :
  foldl addIfMissing idx depends
  = idx ++ firstSeen (filter (λ d, d ∉ idx) depends).
Proof.
  revert idx. induction depends as [|d depends IH]; intros idx; simpl.
  - by rewrite app_nil_r.
  - destruct (decide (d ∈ idx)) as [Hd|Hd].
    + rewrite addIfMissing_old, filter_cons_False by auto. apply IH.
    + rewrite addIfMissing_new, filter_cons_True by done. rewrite IH. simpl.
      rewrite <-app_assoc. simpl. do 2 f_equal.
      rewrite <-firstSeen_filter, list_filter_filter.
      f_equal. apply filter_ext_in. intros y _.
      rewrite elem_of_app, list_elem_of_singleton. tauto.
Qed.

Variable parse : string → string * string.

Lemma dropReplaced_empty (l : list string) : dropReplaced parse ∅ l = l.
Proof.
  unfold dropReplaced. induction l as [|x l IH]; [done |].
  rewrite filter_cons_True by set_solver. by f_equal.
Qed.

Lemma reconcile_nothing_replaced (depends idx : list string) :
  reconcile parse ∅ depends idx
  = idx ++ firstSeen (filter (λ d, d ∉ idx) depends).
Proof.
  unfold reconcile. rewrite size_empty.
  destruct (decide (0 ≠ 0)); [done | apply foldl_addIfMissing].
Qed.

Lemma reconcile_replaced (replaced : gset string) (depends idx : list string) :
  replaced ≠ ∅ →
  reconcile parse replaced depends idx
  = foldl addIfMissing (dropReplaced parse replaced idx) depends.
Proof.
  intros Hne. unfold reconcile.
  destruct (decide (size replaced ≠ 0)) as [|Hz]; [done |].
  destruct Hne. apply leibniz_equiv, size_empty_inv. lia.
Qed.

Lemma dropReplaced_names (replaced : gset string) (l : list string) (d : string) :
  d ∈ dropReplaced parse replaced l → depName parse d ∉ replaced.
Proof. unfold dropReplaced. by intros [? ?]%list_elem_of_filter. Qed.

Lemma NoDup_fmap_filter {A B} (f : A → B) (P : A → Prop)
    `{∀ x, Decision (P x)} (l : list A) :
  NoDup (f <$> l) → NoDup (f <$> filter P l).
Proof.
  induction l as [|x l IH]; [done |].
  rewrite fmap_cons, NoDup_cons. intros [Hx Hl].
  destruct (decide (P x)).
  - rewrite filter_cons_True by done. rewrite fmap_cons, NoDup_cons.
    split; [| by apply IH].
    intros (y & Hy & [_ Hin]%list_elem_of_filter)%list_elem_of_fmap.
    apply Hx, list_elem_of_fmap. eauto.
  - rewrite filter_cons_False by done. by apply IH.
Qed.

End ReconcileFacts.

Section InstallerFacts.

Import Pacman.
Context `{Collaborators W}.

(** The persistence calls leave the manager's memory as it is, so the
    manifest after [InstallNewDependencies] is the reconciled one whatever
    they return. *)
Lemma InstallNewDependencies_manifest (depends : list string) (replace : bool)
    (s s1 : State W) (installed : list string) (replaced : gset string) :
  installDependencies depends replace s = (s1, inr (installed, replaced)) →
  manifest (pm (InstallNewDependencies depends replace s).1)
  = reconcile ParseIndexDependency replaced depends (manifest (pm s1)).
Proof.
  intros Hinstall.
  unfold InstallNewDependencies, bind, wrapf, modify. rewrite Hinstall.
  unfold callSaveIndex, callSaveIndexLock, check, extern.
  repeat (simpl; match goal with
                 | |- context [SaveIndex ?p ?w] => destruct (SaveIndex p w) as [? [?|]]
                 | |- context [SaveIndexLock ?p ?w] =>
                     destruct (SaveIndexLock p w) as [? [?|]]
                 end); done.
Qed.

(** C1, as the code has it. When a call with [replace] installs one spec
    and the install step supersedes the spec's name, the manifest keeps the
    entries whose names were not superseded, in their order, followed by the
    new spec: the new spec is the only entry of its name, it stands at the
    end of the list, and names stay unique. *)
Theorem InstallNewDependencies_supersede (s s1 : State W) (spec : string)
    (installed : list string) (replaced : gset string) :
  installDependencies [spec] true s = (s1, inr (installed, replaced)) →
  manifest (pm s1) = manifest (pm s) →
  depName ParseIndexDependency spec ∈ replaced →
  NoDup (depName ParseIndexDependency <$> manifest (pm s)) →
  let after := manifest (pm (InstallNewDependencies [spec] true s).1) in
  after = dropReplaced ParseIndexDependency replaced (manifest (pm s)) ++ [spec] ∧
  filter (λ d, depName ParseIndexDependency d = depName ParseIndexDependency spec)
    after = [spec] ∧
  NoDup (depName ParseIndexDependency <$> after).
Proof.
  intros Hinstall Hframe Hin Hnodup after.
  assert (after = dropReplaced ParseIndexDependency replaced (manifest (pm s))
                  ++ [spec]) as Hafter.
  { unfold after. rewrite (InstallNewDependencies_manifest _ _ _ _ _ _ Hinstall).
    rewrite Hframe, reconcile_replaced by set_solver. simpl.
    apply addIfMissing_new. by intros ?%dropReplaced_names. }
  split; [done |]. rewrite Hafter. split.
  - rewrite filter_app, filter_cons_True, filter_nil by done.
    rewrite filter_none; [done |].
    intros d Hd%dropReplaced_names Heq. congruence.
  - rewrite fmap_app. apply NoDup_app. split; [| split].
    + by apply NoDup_fmap_filter.
    + intros n (d & -> & Hd%dropReplaced_names)%list_elem_of_fmap.
      simpl. intros Hn%list_elem_of_singleton. congruence.
    + simpl. apply NoDup_singleton.
Qed.

(** C2, as the code has it. When a call without [replace] supersedes
    nothing, the manifest is extended by the requested specs that it does not
    contain as strings, each once and in the order of their first request.
    A spec whose name is new is among them; a request made only of specs
    already listed changes nothing. *)
Theorem InstallNewDependencies_append (s s1 : State W)
    (depends installed : list string) :
  installDependencies depends false s = (s1, inr (installed, ∅)) →
  manifest (pm s1) = manifest (pm s) →
  let before := manifest (pm s) in
  let after := manifest (pm (InstallNewDependencies depends false s).1) in
  after = before ++ firstSeen (filter (λ d, d ∉ before) depends) ∧
  (∀ d, d ∈ depends →
        depName ParseIndexDependency d ∉ depName ParseIndexDependency <$> before →
        d ∈ after ∧ d ∉ before) ∧
  ((∀ d, d ∈ depends → d ∈ before) → after = before).
Proof.
  intros Hinstall Hframe before after.
  assert (after = before ++ firstSeen (filter (λ d, d ∉ before) depends))
    as Hafter.
  { unfold after. rewrite (InstallNewDependencies_manifest _ _ _ _ _ _ Hinstall).
    by rewrite Hframe, reconcile_nothing_replaced. }
  split; [done |]. split.
  - intros d Hd Hname.
    assert (d ∉ before) as Hnew
      by (intros Hb; apply Hname, list_elem_of_fmap; eauto).
    split; [| done]. rewrite Hafter, elem_of_app. right.
    clear -Hd Hnew. induction depends as [|x l IH]; [by apply elem_of_nil in Hd |].
    apply elem_of_cons in Hd as [->|Hd].
    + rewrite filter_cons_True by done. simpl. by left.
    + destruct (decide (x ∉ before)).
      * rewrite filter_cons_True by done. simpl.
        destruct (decide (d = x)) as [->|Hne]; [by left | right].
        apply list_elem_of_filter. auto.
      * rewrite filter_cons_False by done. auto.
  - intros Hall. rewrite Hafter.
    rewrite filter_none; [by rewrite app_nil_r |].
    intros d Hd Hnew. by apply Hnew, Hall.
Qed.

End InstallerFacts.

Section InstallerExamples.

Import Pacman Examples.

Lemma InstallNewDependencies_supersede_witness :
  let after := manifest (pm (InstallNewDependencies ["A@2"] true beforeReplace).1) in
  after = dropReplaced ParseIndexDependency {["A"]} (manifest (pm beforeReplace))
          ++ ["A@2"] ∧
  filter (λ d, depName ParseIndexDependency d = depName ParseIndexDependency "A@2")
    after = ["A@2"] ∧
  NoDup (depName ParseIndexDependency <$> after).
Proof.
  apply (InstallNewDependencies_supersede beforeReplace
           (installDependencies ["A@2"] true beforeReplace).1 "A@2" ["A"] {["A"]}).
  - vm_compute. reflexivity.
  - vm_compute. reflexivity.
  - apply elem_of_singleton. vm_compute. reflexivity.
  - refine (bool_decide_unpack _ _). vm_compute. exact I.
Defined.

(** C1 as written fails: [A@1] stood first, [A@2] does not. *)
Lemma InstallNewDependencies_replace_moves :
  manifest (pm beforeReplace) !! 0 = Some "A@1" ∧
  (InstallNewDependencies ["A@2"] true beforeReplace).2 = inr ["A"] ∧
  manifest (pm (InstallNewDependencies ["A@2"] true beforeReplace).1)
  = ["B@1"; "A@2"] ∧
  manifest (pm (InstallNewDependencies ["A@2"] true beforeReplace).1) !! 0
  ≠ Some "A@2".
Proof. vm_compute. repeat split; discriminate. Qed.

Lemma InstallNewDependencies_append_witness :
  let before := manifest (pm beforeAppend) in
  let after := manifest (pm (InstallNewDependencies ["A@1"; "C"; "C"] false beforeAppend).1) in
  after = before ++ firstSeen (filter (λ d, d ∉ before) ["A@1"; "C"; "C"]) ∧
  (∀ d, d ∈ ["A@1"; "C"; "C"] →
        depName ParseIndexDependency d ∉ depName ParseIndexDependency <$> before →
        d ∈ after ∧ d ∉ before) ∧
  ((∀ d, d ∈ ["A@1"; "C"; "C"] → d ∈ before) → after = before).
Proof.
  apply (InstallNewDependencies_append beforeAppend
           (installDependencies ["A@1"; "C"; "C"] false beforeAppend).1
           ["A@1"; "C"; "C"] ["A"; "C"; "C"]).
  - vm_compute. reflexivity.
  - vm_compute. reflexivity.
Defined.

(** C2 as written fails: the name [A] is listed, yet [A@2] is appended. *)
Lemma InstallNewDependencies_same_name_appended :
  depName ParseIndexDependency "A@2"
  ∈ depName ParseIndexDependency <$> manifest (pm beforeAppend) ∧
  (InstallNewDependencies ["A@2"] false beforeAppend).2 = inr ["A"] ∧
  manifest (pm (InstallNewDependencies ["A@2"] false beforeAppend).1)
  = ["A@1"; "A@2"] ∧
  manifest (pm (InstallNewDependencies ["A@2"] false beforeAppend).1)
  ≠ manifest (pm beforeAppend).
Proof.
  split; [vm_compute; by left |]. vm_compute. repeat split; discriminate.
Qed.

End InstallerExamples.

(** ** The installer: failures *)

Section InstallerFailures.

Import Pacman.
Context `{Collaborators W}.


Lemma savesNothing_ret {A} (a : A) : savesNothing (W:=W) (ret a).
Proof.
  intros s s' r [= <- <-]. exists []. by rewrite app_nil_r.
Qed.

Lemma savesNothing_gets {A} (f : State W → A) : savesNothing (gets f).
Proof.
  intros s s' r [= <- <-]. exists []. by rewrite app_nil_r.
Qed.

Lemma savesNothing_bind {A B} (c : M (State W) A) (k : A → M (State W) B) :
  savesNothing c → (∀ a, savesNothing (k a)) → savesNothing (bind c k).
Proof.
  intros Hc Hk s s' r. unfold bind.
  destruct (c s) as [s1 [e|a]] eqn:Hcs.
  - intros [= <- <-]. by eapply Hc.
  - intros Hka. destruct (Hc _ _ _ Hcs) as (n1 & E1 & F1).
    destruct (Hk _ _ _ _ Hka) as (n2 & E2 & F2).
    exists (n1 ++ n2). split; [by rewrite E2, E1, app_assoc |].
    by apply Forall_app.
Qed.

Lemma savesNothing_wrapf {A} (ctx : string) (c : M (State W) A) :
  savesNothing c → savesNothing (wrapf ctx c).
Proof.
  intros Hc s s' r. unfold wrapf.
  destruct (c s) as [s1 [e|a]] eqn:Hcs; intros [= <- <-]; by eapply Hc.
Qed.

Lemma savesNothing_forEach {A} (l : list A) (body : A → M (State W) unit) :
  (∀ x, savesNothing (body x)) → savesNothing (forEach l body).
Proof.
  intros Hbody. induction l as [|x l IH]; simpl.
  - apply savesNothing_ret.
  - apply savesNothing_bind; auto.
Qed.

Lemma savesNothing_extern (c : Call) (f : W → W * option error) :
  isSave c = false → savesNothing (check (extern c f)).
Proof.
  intros Hc s s' r. unfold check, extern.
  destruct (f (world s)) as [w [e|]]; intros [= <- <-];
    exists [c]; simpl; by repeat constructor.
Qed.

Lemma savesNothing_method (c : Call)
    (f : PackageManager → W → PackageManager * W * option error) :
  isSave c = false → savesNothing (check (method c f)).
Proof.
  intros Hc s s' r. unfold check, method.
  destruct (f (pm s) (world s)) as [[p w] [e|]]; intros [= <- <-];
    exists [c]; simpl; by repeat constructor.
Qed.

Lemma processInstalledDependencies_savesNothing (installed : list string) :
  savesNothing (processInstalledDependencies installed).
Proof.
  apply savesNothing_forEach. intros sourceName. unfold processOne.
  apply savesNothing_bind; [apply savesNothing_gets | intros pkgLock].
  apply savesNothing_bind; [apply savesNothing_gets | intros dir].
  apply savesNothing_bind.
  - apply savesNothing_forEach. intros dep. unfold rewriteOne.
    apply savesNothing_bind; [apply savesNothing_gets | intros depPkgLock].
    by apply savesNothing_wrapf, savesNothing_method.
  - intros _. by apply savesNothing_wrapf, savesNothing_extern.
Qed.

(** The install step never persists anything. *)
Lemma installDependencies_savesNothing (depends : list string) (replace : bool) :
  savesNothing (installDependencies depends replace).
Proof.
  unfold installDependencies. apply savesNothing_bind.
  - apply savesNothing_wrapf. intros s s' r. unfold method.
    destruct (Download _ _ _ _) as [[p w] res]. intros [= <- <-].
    exists [CallDownload depends replace]. simpl. by repeat constructor.
  - intros [installed replaced]. apply savesNothing_bind.
    + apply savesNothing_wrapf, processInstalledDependencies_savesNothing.
    + intros _. apply savesNothing_ret.
Qed.

(** When the install step fails, [InstallNewDependencies] stops there: it
    returns the wrapped error in the state the install step left, in which no
    persistence call has been made. *)
Lemma InstallNewDependencies_install_fails (depends : list string)
    (replace : bool) (s s1 : State W) (e : error) :
  installDependencies depends replace s = (s1, inl e) →
  InstallNewDependencies depends replace s
  = (s1, inl (Errorf "failed to install dependencies: " e)) ∧
  ∃ new, calls s1 = calls s ++ new ∧ Forall (λ c, isSave c = false) new.
Proof.
  intros Hinstall. split.
  - unfold InstallNewDependencies, bind, wrapf. by rewrite Hinstall.
  - by eapply installDependencies_savesNothing.
Qed.

(** C3. When the download fails, [InstallNewDependencies] returns the error
    wrapped twice, in the state the resolver left: the only call made is the
    download, so neither [SaveIndex] nor [SaveIndexLock] is reached, and the
    manifest in memory is the one before the call as long as the resolver
    has not written it. *)
Theorem InstallNewDependencies_download_fails (depends : list string)
    (replace : bool) (s : State W) (pm' : PackageManager) (w' : W) (e : error) :
  Download depends replace (pm s) (world s) = (pm', w', inl e) →
  manifest pm' = manifest (pm s) →
  let r := InstallNewDependencies depends replace s in
  r.2 = inl (Errorf "failed to install dependencies: "
               (Errorf "failed to download dependencies: " e)) ∧
  pm r.1 = pm' ∧ world r.1 = w' ∧
  calls r.1 = calls s ++ [CallDownload depends replace] ∧
  filter (λ c, isSave c = true) (calls r.1) = filter (λ c, isSave c = true) (calls s) ∧
  manifest (pm r.1) = manifest (pm s).
Proof.
  intros Hdl Hframe r.
  assert (installDependencies depends replace s
          = (with_pm pm' (with_world w' (called (CallDownload depends replace) s)),
             inl (Errorf "failed to download dependencies: " e))) as Hinstall.
  { unfold installDependencies, bind, wrapf, method. by rewrite Hdl. }
  destruct (InstallNewDependencies_install_fails _ _ _ _ _ Hinstall) as [Hr _].
  unfold r. rewrite Hr. simpl. repeat split; try done.
  rewrite filter_app, filter_cons_False, filter_nil, app_nil_r; done.
Qed.

End InstallerFailures.

Section PostProcessing.

Import Pacman.
Context `{Collaborators W}.



End PostProcessing.

Section InstallerFailureExamples.

Import Pacman Examples.

Lemma InstallNewDependencies_download_fails_witness :
  let r := InstallNewDependencies ["B@1"] false beforeOffline in
  r.2 = inl (Errorf "failed to install dependencies: "
               (Errorf "failed to download dependencies: "
                  (ErrNew "network is unreachable"))) ∧
  pm r.1 = pm beforeOffline ∧ world r.1 = world beforeOffline ∧
  calls r.1 = calls beforeOffline ++ [CallDownload ["B@1"] false] ∧
  filter (λ c, isSave c = true) (calls r.1)
  = filter (λ c, isSave c = true) (calls beforeOffline) ∧
  manifest (pm r.1) = manifest (pm beforeOffline).
Proof.
  apply (InstallNewDependencies_download_fails ["B@1"] false beforeOffline
           (pm beforeOffline) (world beforeOffline)
           (ErrNew "network is unreachable")).
  - reflexivity.
  - reflexivity.
Defined.



End InstallerFailureExamples.

(** ** The validator orchestrator *)

Section ValidateFacts.

Import Pacman.
Context `{Collaborators W}.

(** An unreadable manifest of a dependency: the error names the installed
    identifier of that dependency. *)
Lemma loadDependency_index_unreadable (dep : PackageLock) (s : State W)
    (w : W) (cause : error) :
  let indexFile :=
    filepath_Join [DependenciesDir (pm s); AppCode dep; IndexFileName] in
  ReadIndexFile indexFile (world s) = (w, inl cause) →
  ∃ s' e, loadDependency dep s = (s', inl e) ∧ names e (AppCode dep).
Proof.
  intros indexFile Hread.
  unfold loadDependency, bind, gets, wrapf, extern. fold indexFile.
  rewrite Hread. eexists _, _. split; [done |]. apply names_Errorf.
Qed.

(** What [Validate] does when the metadata cache of a locked dependency
    cannot be loaded: it returns at once a list holding one error, the
    loader's error under the context "failed to add entities from" followed
    by the name of the cache file. The last calls made are the ones on that
    dependency: no further dependency is read and the engine is not run. *)
Lemma Validate_cache_unreadable (pre post : list PackageLock)
    (dep : PackageLock) (s s0 s1 : State W) (idx : Index) (w2 w3 : W)
    (cause : error) :
  prepareValidator s = (s0, inr tt) →
  forEach pre loadDependency s0 = (s1, inr tt) →
  let indexFile :=
    filepath_Join [DependenciesDir (pm s1); AppCode dep; IndexFileName] in
  let cacheFile := filepath_Join [Index_BaseDir idx; MetadataCacheFile] in
  ReadIndexFile indexFile (world s1) = (w2, inr idx) →
  AddFromFile cacheFile w2 = (w3, Some cause) →
  let r := Validate (pre ++ dep :: post) s in
  let e := Errorf ("failed to add entities from " +:+ MetadataCacheFile +:+ ": ")
             cause in
  r.2 = [e] ∧ names e MetadataCacheFile ∧ Unwrap e = Some cause ∧
  pm r.1 = pm s1 ∧ world r.1 = w3 ∧
  calls r.1 = calls s1 ++ [CallReadIndexFile indexFile; CallAddFromFile cacheFile].
Proof.
  intros Hprep Hpre indexFile cacheFile Hread Hadd r e.
  assert (loadDependency dep s1
          = (with_world w3 (called (CallAddFromFile cacheFile)
               (with_world w2 (called (CallReadIndexFile indexFile) s1))),
             inl e)) as Hdep.
  { unfold loadDependency, bind, gets, wrapf, check, extern.
    fold indexFile. rewrite Hread. simpl. fold cacheFile. by rewrite Hadd. }
  assert (validate (pre ++ dep :: post) s
          = (with_world w3 (called (CallAddFromFile cacheFile)
               (with_world w2 (called (CallReadIndexFile indexFile) s1))),
             inl e)) as Hval.
  { unfold validate, bind. rewrite Hprep.
    by rewrite (forEach_abort pre post dep _ _ _ _ _ Hpre Hdep). }
  unfold r, Validate. rewrite Hval. simpl.
  repeat split; [apply names_Errorf | by rewrite <-app_assoc].
Qed.

End ValidateFacts.

Section ValidateExamples.

Import Pacman Examples.

Example Validate_cache_unreadable_sample :
  let dep := {| AppCode := "lib-1.0"; Depends := [] |} in
  let s1 := (prepareValidator beforeValidate).1 in
  let indexFile :=
    filepath_Join [DependenciesDir (pm s1); AppCode dep; IndexFileName] in
  let cacheFile := filepath_Join [Index_BaseDir libIndex; MetadataCacheFile] in
  let r := Validate ([] ++ dep :: [dep]) beforeValidate in
  let e := Errorf ("failed to add entities from " +:+ MetadataCacheFile +:+ ": ")
             (ErrNew "unexpected end of JSON input") in
  r.2 = [e] ∧ names e MetadataCacheFile ∧
  Unwrap e = Some (ErrNew "unexpected end of JSON input") ∧
  pm r.1 = pm s1 ∧ world r.1 = world beforeValidate ∧
  calls r.1 = calls s1 ++ [CallReadIndexFile indexFile; CallAddFromFile cacheFile].
Proof.
  apply (Validate_cache_unreadable [] [{| AppCode := "lib-1.0"; Depends := [] |}]
           {| AppCode := "lib-1.0"; Depends := [] |} beforeValidate
           (prepareValidator beforeValidate).1 (prepareValidator beforeValidate).1
           libIndex (world beforeValidate) (world beforeValidate)
           (ErrNew "unexpected end of JSON input")).
  - vm_compute. reflexivity.
  - reflexivity.
  - vm_compute. reflexivity.
  - vm_compute. reflexivity.
Defined.

(** C4, on a package whose locked dependency [lib], installed as [lib-1.0],
    has a truncated metadata cache: [Validate] returns a single error, and
    that error mentions neither the installed identifier nor the source name
    of the dependency, while line 130 names it when the manifest is the file
    that cannot be read. *)
Theorem Validate_error_unnamed :
  locked (pm beforeValidate) !! "lib" = Some {| AppCode := "lib-1.0"; Depends := [] |} ∧
  (Validate [{| AppCode := "lib-1.0"; Depends := [] |}] beforeValidate).2
  = [Errorf "failed to add entities from .cache.json: "
       (ErrNew "unexpected end of JSON input")] ∧
  ¬ names (Errorf "failed to add entities from .cache.json: "
             (ErrNew "unexpected end of JSON input")) "lib-1.0" ∧
  ¬ names (Errorf "failed to add entities from .cache.json: "
             (ErrNew "unexpected end of JSON input")) "lib".
Proof. vm_compute. repeat split; discriminate. Qed.

End ValidateExamples.

(** ** The bundle packer *)

Section PackFacts.

Import Pacman.
Context `{Collaborators W}.

Lemma appendLast_snoc (data written : bytes) (name : string)
    (entries : list (string * bytes)) :
  appendLast data (entries ++ [(name, written)])
  = entries ++ [(name, written ++ data)].
Proof.
  unfold appendLast. rewrite reverse_snoc. simpl. by rewrite reverse_involutive.
Qed.

Lemma copy_into_archive (ctx1 ctx2 ctx3 baseDir name : string)
    (s s' : PackState W) :
  (let* data := wrapf ctx1 (openFile (filepath_Join [baseDir; name])) in
   let* _ := wrapf ctx2 (zip_Create name) in
   wrapf ctx3 (zip_Write data)) s = (s', inr tt) →
  readable (pk_world s) baseDir name ∧
  s' = {| pk_world := pk_world s;
          zipWriter := zipWriter s ++ [copyOf (pk_world s) baseDir name] |}.
Proof.
  unfold bind, wrapf, openFile, zip_Create, zip_Write, readable, copyOf.
  destruct (os_OpenFile _ _) as [e|data]; [done |].
  destruct (zip_Create_error _ _); [done |]. simpl.
  destruct (zip_Write_error _ _); [done |].
  intros [= <-]. split; [by eexists |]. by rewrite appendLast_snoc.
Qed.

Lemma bundleAsset_ok (baseDir assetPath : string) (s s' : PackState W) :
  bundleAsset baseDir assetPath s = (s', inr tt) →
  readable (pk_world s) baseDir assetPath ∧
  s' = {| pk_world := pk_world s;
          zipWriter := zipWriter s ++ [copyOf (pk_world s) baseDir assetPath] |}.
Proof. apply copy_into_archive. Qed.

Lemma bundleSerialized_ok (baseDir metadata : string) (s s' : PackState W) :
  bundleSerialized baseDir metadata s = (s', inr tt) →
  readable (pk_world s) baseDir metadata ∧
  s' = {| pk_world := pk_world s;
          zipWriter := zipWriter s ++ [copyOf (pk_world s) baseDir metadata] |}.
Proof. apply copy_into_archive. Qed.

(** A scan that succeeds copies the discovered assets, in order, and
    nothing else. *)
Lemma scanAnnotations_ok (baseDir : string) (entity : Entity)
    (annotations : list (string * Annotation)) (s s' : PackState W) :
  scanAnnotations baseDir entity annotations s = (s', inr tt) →
  pk_world s' = pk_world s ∧
  Forall (readable (pk_world s) baseDir) (assetPaths entity annotations) ∧
  zipWriter s'
  = zipWriter s ++ (copyOf (pk_world s) baseDir <$> assetPaths entity annotations).
Proof.
  revert s. induction annotations as [|[key annotation] rest IH]; intros s; simpl.
  - intros [= <-]. by rewrite app_nil_r.
  - destruct (Asset annotation); [| apply IH].
    destruct (decide (GetValue_String key (Values entity) = "")).
    + intros [= <-]. by rewrite app_nil_r.
    + unfold bind at 1. unfold wrapf at 1.
      destruct (bundleAsset _ _ s) as [s1 [e|[]]] eqn:Hasset; [done |].
      apply bundleAsset_ok in Hasset as [Hread ->].
      intros (Hw & Hall & Hzip)%IH. simpl in *.
      split; [done |]. split; [by constructor |].
      by rewrite Hzip, <-app_assoc.
Qed.

Lemma scanEntity_ok (p : ParsedPackage)
    (order : list (string * Annotation) → list (string * Annotation))
    (entity : Entity) (s s' : PackState W) :
  scanEntity p order entity s = (s', inr tt) →
  pk_world s' = pk_world s ∧
  Forall (readable (pk_world s) (Parsed_BaseDir p)) (entityAssets p order entity) ∧
  zipWriter s'
  = zipWriter s
    ++ (copyOf (pk_world s) (Parsed_BaseDir p) <$> entityAssets p order entity).
Proof.
  unfold scanEntity, entityAssets.
  destruct (Types (Registry p) !! _); [apply scanAnnotations_ok | done].
Qed.

Lemma scanEntities_ok (p : ParsedPackage)
    (visit : nat → list (string * Annotation) → list (string * Annotation))
    (instances : list (nat * Entity)) (s s' : PackState W) :
  forEach instances (scanInstance p visit) s = (s', inr tt) →
  pk_world s' = pk_world s ∧
  Forall (readable (pk_world s) (Parsed_BaseDir p))
    (discoveredAmong p visit instances) ∧
  zipWriter s'
  = zipWriter s ++ (copyOf (pk_world s) (Parsed_BaseDir p)
                      <$> discoveredAmong p visit instances).
Proof.
  unfold discoveredAmong.
  revert s. induction instances as [|instance rest IH]; intros s; simpl.
  - intros [= <-]. by rewrite app_nil_r.
  - unfold bind at 1.
    destruct (scanInstance p visit instance s) as [s1 [e|[]]] eqn:Hentity;
      [done |].
    apply scanEntity_ok in Hentity as (Hw1 & Hall1 & Hzip1).
    intros (Hw & Hall & Hzip)%IH. rewrite Hw1 in *.
    split; [done |]. split; [by apply Forall_app |].
    by rewrite Hzip, Hzip1, fmap_app, app_assoc.
Qed.

Lemma indexFrom_app {A} (i : nat) (l1 l2 : list A) :
  indexFrom i (l1 ++ l2) = indexFrom i l1 ++ indexFrom (i + length l1) l2.
Proof.
  revert i. induction l1 as [|x l1 IH]; intros i; simpl.
  - by rewrite Nat.add_0_r.
  - by rewrite IH, Nat.add_succ_r.
Qed.

Lemma bundleSerialized_all_ok (baseDir : string) (serialized : list string)
    (s s' : PackState W) :
  forEach serialized (bundleSerialized baseDir) s = (s', inr tt) →
  pk_world s' = pk_world s ∧
  Forall (readable (pk_world s) baseDir) serialized ∧
  zipWriter s' = zipWriter s ++ (copyOf (pk_world s) baseDir <$> serialized).
Proof.
  revert s. induction serialized as [|metadata rest IH]; intros s; simpl.
  - intros [= <-]. by rewrite app_nil_r.
  - unfold bind at 1.
    destruct (bundleSerialized baseDir metadata s) as [s1 [e|[]]] eqn:Hone;
      [done |].
    apply bundleSerialized_ok in Hone as [Hread ->].
    intros (Hw & Hall & Hzip)%IH. simpl in *.
    split; [done |]. split; [by constructor |].
    by rewrite Hzip, <-app_assoc.
Qed.

(** C6. An archive [Pack] completes holds, in this order: a byte-for-byte
    copy of every discovered asset under its path; the entry [index.json]
    with the bytes of a manifest that has the fields of the package's
    manifest and lists, after the serialized files the manifest lists, the
    metadata cache file; and a byte-for-byte copy of every file so listed,
    the metadata cache among them. Every copied file could be read. This
    holds whatever order each range over a type's annotations draws. *)
Theorem Pack_archive (pm : PackageManager)
    (visit : nat → list (string * Annotation) → list (string * Annotation))
    (s s' : PackState W) :
  Pack pm visit s = (s', inr tt) →
  let idx := Package_Index (Package_ pm) in
  let serialized :=
    if decide (MetadataCacheFile ∈ Index_Serialized idx)
    then Index_Serialized idx
    else Index_Serialized idx ++ [MetadataCacheFile] in
  let tagged :=
    {| Index_FilePath := Index_FilePath idx;
       Index_BaseDir := Index_BaseDir idx;
       Index_Depends := Index_Depends idx;
       Index_Serialized := serialized |} in
  ∃ p w0,
    ParsePackage (Index_FilePath idx) (pk_world s) = (w0, inr p) ∧
    os_Create (filepath_Join [BaseDir pm; BundleName]) w0 = (pk_world s', None) ∧
    Forall (readable (pk_world s') (Parsed_BaseDir p)) (discovered p visit) ∧
    Forall (readable (pk_world s') (Parsed_BaseDir p)) serialized ∧
    MetadataCacheFile ∈ serialized ∧
    zipWriter s'
    = (copyOf (pk_world s') (Parsed_BaseDir p) <$> discovered p visit)
      ++ [("index.json", Index_ToBytes tagged)]
      ++ (copyOf (pk_world s') (Parsed_BaseDir p) <$> serialized).
Proof.
  intros Hpack idx serialized tagged. revert Hpack.
  assert (bundleIndex pm = tagged) as Htagged by done.
  assert (MetadataCacheFile ∈ serialized) as Hcache.
  { unfold serialized. destruct (decide _); [done |].
    apply elem_of_app. right. by apply list_elem_of_singleton. }
  unfold Pack. rewrite Htagged. change (Index_Serialized tagged) with serialized.
  clearbody tagged serialized.
  unfold bind at 1. unfold wrapf at 1. unfold onWorld at 1.
  fold idx.
  destruct (ParsePackage _ _) as [w0 [e|p]] eqn:Hparse; [done |].
  unfold bind at 1. unfold wrapf at 1. unfold check, onWorld. simpl.
  destruct (os_Create _ _) as [w1 [e|]] eqn:Hcreate; [done |].
  unfold bind at 1. unfold zip_NewWriter, modify. simpl.
  unfold bind at 1.
  destruct (forEach _ (scanInstance p visit) _) as [s1 [e|[]]] eqn:Hscan;
    [done |].
  apply scanEntities_ok in Hscan as (Hw1 & Hall1 & Hzip1). simpl in *.
  unfold bind at 1. unfold wrapf at 1. unfold zip_Create.
  destruct (zip_Create_error _ _); [done |].
  unfold bind at 1. unfold wrapf at 1. unfold zip_Write. simpl.
  destruct (zip_Write_error _ _); [done |].
  intros (Hw & Hall & Hzip)%bundleSerialized_all_ok. simpl in *.
  rewrite Hw1 in *. rewrite <-Hw in *.
  exists p, w0. repeat split; try done.
  rewrite Hzip, Hzip1, appendLast_snoc. simpl.
  by rewrite <-app_assoc.
Qed.




End PackFacts.

Section PackExamples.

Import Pacman Examples.

Lemma Pack_archive_witness :
  let pm := manager ["lib@1"] ∅ in
  let s' := (Pack pm asListed beforePack).1 in
  let idx := Package_Index (Package_ pm) in
  let serialized :=
    if decide (MetadataCacheFile ∈ Index_Serialized idx)
    then Index_Serialized idx
    else Index_Serialized idx ++ [MetadataCacheFile] in
  let tagged :=
    {| Index_FilePath := Index_FilePath idx;
       Index_BaseDir := Index_BaseDir idx;
       Index_Depends := Index_Depends idx;
       Index_Serialized := serialized |} in
  ∃ p w0,
    ParsePackage (Index_FilePath idx) (pk_world beforePack) = (w0, inr p) ∧
    os_Create (filepath_Join [BaseDir pm; BundleName]) w0 = (pk_world s', None) ∧
    Forall (readable (pk_world s') (Parsed_BaseDir p)) (discovered p asListed) ∧
    Forall (readable (pk_world s') (Parsed_BaseDir p)) serialized ∧
    MetadataCacheFile ∈ serialized ∧
    zipWriter s'
    = (copyOf (pk_world s') (Parsed_BaseDir p) <$> discovered p asListed)
      ++ [("index.json", Index_ToBytes tagged)]
      ++ (copyOf (pk_world s') (Parsed_BaseDir p) <$> serialized).
Proof.
  apply (Pack_archive (manager ["lib@1"] ∅) asListed beforePack
           (Pack (manager ["lib@1"] ∅) asListed beforePack).1).
  vm_compute. reflexivity.
Defined.

(** The archive of the example: the clock's icon, the manifest, the cache;
    the badge's icon follows an empty field and is left out. *)
Example Pack_shop :
  zipWriter (Pack (manager ["lib@1"] ∅) asListed beforePack).1
  = [("assets/clock.png", String.list_byte_of_string "PNG clock");
     ("index.json", String.list_byte_of_string "lib@1");
     (".cache.json", String.list_byte_of_string "{}")].
Proof. vm_compute. reflexivity. Qed.

(** Two instances of one type, the annotations of the type visited in one
    order for the first and in the reverse order for the second: the icon
    of the first is in the archive; for the second the empty [logo] comes
    first and its icon is left out. *)
Example Pack_clocks :
  zipWriter (Pack (manager [] ∅) alternating beforePackClocks).1
  = [("assets/clock.png", String.list_byte_of_string "PNG clock");
     ("index.json", []);
     (".cache.json", String.list_byte_of_string "{}")].
Proof. vm_compute. reflexivity. Qed.

(** A manifest that lists the cache already: it is listed, and embedded,
    once. *)
Example Pack_cache_listed :
  let pm :=
    {| Package_ :=
         {| Package_Index :=
              {| Index_FilePath := "pkg/index.json"; Index_BaseDir := "pkg";
                 Index_Depends := []; Index_Serialized := [".cache.json"] |};
            Package_IndexLock := {| Packages := ∅ |};
            Package_BaseDir := "pkg" |};
       PackageCacheDir := "cache"; DependenciesDir := "pkg/.dep";
       BaseDir := "pkg" |} in
  zipWriter (Pack pm asListed beforePack).1
  = [("assets/clock.png", String.list_byte_of_string "PNG clock");
     ("index.json", []);
     (".cache.json", String.list_byte_of_string "{}")].
Proof. vm_compute. reflexivity. Qed.


End PackExamples.

(** ** The filesystem replace helpers *)

Section Paths.

Import Filesys.

Lemma strip_app (p rel : path) : strip p (p ++ rel) = Some rel.
Proof.
  induction p as [|c p IH]; simpl; [done |].
  by destruct (decide (c = c)).
Qed.

Lemma strip_Some (p q rel : path) : strip p q = Some rel → q = p ++ rel.
Proof.
  revert q. induction p as [|c p IH]; intros q; simpl.
  - by intros [= ->].
  - destruct q as [|d q]; [done |].
    destruct (decide (c = d)) as [->|]; [| done].
    intros ->%IH. done.
Qed.

Lemma within_app (p rel : path) : within p (p ++ rel) = true.
Proof. unfold within. by rewrite strip_app. Qed.

Lemma within_refl (p : path) : within p p = true.
Proof. rewrite <-(app_nil_r p) at 2. apply within_app. Qed.

Lemma within_true (p q : path) : within p q = true → ∃ rel, q = p ++ rel.
Proof.
  unfold within. destruct (strip p q) as [rel|] eqn:E; [| done].
  intros _. exists rel. by apply strip_Some.
Qed.

Lemma within_false (p q : path) : within p q = false ↔ strip p q = None.
Proof. unfold within. by destruct (strip p q). Qed.

Lemma within_trans (p q r : path) :
  within p q = true → within q r = true → within p r = true.
Proof.
  intros [r1 ->]%within_true [r2 ->]%within_true.
  rewrite <-app_assoc. apply within_app.
Qed.

(** Two paths that lead to the same place are one above the other. *)
Lemma within_comparable (p q rel : path) :
  within p (q ++ rel) = true → within p q = true ∨ within q p = true.
Proof.
  revert q. induction p as [|c p IH]; intros q.
  - intros _. left. apply (within_app []).
  - destruct q as [|d q]; [intros _; right; apply (within_app []) |].
    unfold within. simpl. destruct (decide (c = d)) as [->|]; [| done].
    destruct (decide (d = d)); [| done]. apply IH.
Qed.

Lemma within_Dir (p : path) : within (filepath_Dir p) p = true.
Proof.
  unfold filepath_Dir. generalize (length p - 1). intros n.
  rewrite <-(take_drop n p) at 2. apply within_app.
Qed.

Lemma within_Dir_self (p : path) : within p (filepath_Dir p) = true → p = [].
Proof.
  intros [rel Hrel]%within_true. apply (f_equal length) in Hrel.
  unfold filepath_Dir in Hrel. rewrite length_app, length_take in Hrel.
  destruct p; [done | simpl in Hrel; lia].
Qed.

Lemma disjoint_under (p q rel : path) :
  strip p q = None → strip q p = None → strip q (p ++ rel) = None.
Proof.
  intros Hpq Hqp. apply within_false.
  destruct (within q (p ++ rel)) eqn:E; [| done].
  apply within_comparable in E as [E|E]; apply within_false in Hpq, Hqp; congruence.
Qed.

Lemma disjoint_above (p q r rel : path) :
  strip p q = None → within r q = true → within (p ++ rel) r = false.
Proof.
  intros Hpq Hrq. destruct (within (p ++ rel) r) eqn:E; [| done].
  apply within_false in Hpq.
  rewrite (within_trans p (p ++ rel) q) in Hpq; [done | apply within_app |].
  by eapply within_trans.
Qed.

End Paths.

Section ReplaceFacts.

Import Filesys.
Context `{OSLaws Disk}.
#[local] Set Default Proof Using "All".

(** The root cannot be removed. *)
Lemma RemoveAll_root (fs fs' : Disk) : os_RemoveAll [] fs ≠ (fs', None).
Proof.
  intros Hrm. pose proof (RemoveAll_ok _ _ _ Hrm []) as Hroot.
  simpl in Hroot. by rewrite look_root in Hroot.
Qed.

(** C8. [ReplaceWithMove] removes [dst], creates the directory of [dst] and
    renames [src] to [dst], in that order. It asks nothing about [dst]
    beforehand: [dst] is a failure only when [os.RemoveAll] returns an
    error. The first failure is returned wrapped, and [nil] is returned
    when the three calls succeed. When it
    succeeds, [dst] holds what [src] held before the call, path by path, and
    nothing is left at [src] or under it. *)
Theorem ReplaceWithMove_spec (src dst : path) (fs : Disk) :
  (∀ fs1 e, os_RemoveAll dst fs = (fs1, Some e) →
     ReplaceWithMove src dst fs = (fs1, inl (Errorf "remove existing dir: " e))) ∧
  (∀ fs1 fs2 e,
     os_RemoveAll dst fs = (fs1, None) →
     os_MkdirAll (filepath_Dir dst) fs1 = (fs2, Some e) →
     ReplaceWithMove src dst fs = (fs2, inl (Errorf "create directory: " e))) ∧
  (∀ fs1 fs2 fs3 e,
     os_RemoveAll dst fs = (fs1, None) →
     os_MkdirAll (filepath_Dir dst) fs1 = (fs2, None) →
     os_Rename src dst fs2 = (fs3, Some e) →
     ReplaceWithMove src dst fs
     = (fs3, inl (Errorf ("move " +:+ path_string src +:+ " -> "
                            +:+ path_string dst +:+ ": ") e))) ∧
  (∀ fs1 fs2 fs3,
     os_RemoveAll dst fs = (fs1, None) →
     os_MkdirAll (filepath_Dir dst) fs1 = (fs2, None) →
     os_Rename src dst fs2 = (fs3, None) →
     ReplaceWithMove src dst fs = (fs3, inr tt)) ∧
  (∀ fs', ReplaceWithMove src dst fs = (fs', inr tt) →
     ∃ fs1 fs2,
       os_RemoveAll dst fs = (fs1, None) ∧
       os_MkdirAll (filepath_Dir dst) fs1 = (fs2, None) ∧
       os_Rename src dst fs2 = (fs', None) ∧
       (∀ rel, look fs' (dst ++ rel) = look fs (src ++ rel)) ∧
       (∀ rel, look fs' (src ++ rel) = None)).
Proof.
  unfold ReplaceWithMove, bind, wrapf, check.
  split; [by intros fs1 e -> |].
  split; [by intros fs1 fs2 e -> -> |].
  split; [by intros fs1 fs2 fs3 e -> -> -> |].
  split; [by intros fs1 fs2 fs3 -> -> -> |].
  intros fs'.
  destruct (os_RemoveAll dst fs) as [fs1 [e|]] eqn:Hrm; [done |].
  destruct (os_MkdirAll _ fs1) as [fs2 [e|]] eqn:Hmk; [done |].
  destruct (os_Rename src dst fs2) as [fs3 [e|]] eqn:Hmv; [done |].
  intros [= <-]. exists fs1, fs2. do 3 (split; [done |]).
  pose proof (RemoveAll_ok _ _ _ Hrm) as Hlook1.
  pose proof (MkdirAll_ok _ _ _ Hmk) as Hlook2.
  destruct (Rename_ok _ _ _ _ Hmv) as [Hsrc [[-> _]|(Hsd & Hds & Hlook3)]].
  - (* the same path: it was removed, so it is the root, which cannot be *)
    exfalso. rewrite Hlook2, Hlook1, within_refl in Hsrc.
    destruct (within dst (filepath_Dir dst)) eqn:E; [| done].
    apply within_Dir_self in E as ->. by eapply RemoveAll_root.
  - assert (∀ rel, look fs2 (src ++ rel) = look fs (src ++ rel)) as Hkept.
    { intros rel. rewrite Hlook2, Hlook1.
      rewrite (disjoint_above src dst _ rel Hsd (within_Dir dst)).
      by rewrite (proj2 (within_false _ _) (disjoint_under _ _ rel Hsd Hds)). }
    split; intros rel; rewrite Hlook3.
    + by rewrite strip_app.
    + by rewrite (disjoint_under _ _ rel Hsd Hds), within_app.
Qed.

(** Lines 14-20 leave nothing at [dst] and touch nothing outside it. *)
Lemma removeExisting_ok (dst : path) (fs fs1 : Disk) :
  removeExisting dst fs = (fs1, inr tt) →
  (∀ rel, look fs1 (dst ++ rel) = None) ∧
  (∀ q, within dst q = false → look fs1 q = look fs q).
Proof.
  unfold removeExisting, wrapf, check.
  destruct (os_Stat dst fs) as [err|] eqn:Hstat.
  - destruct (os_IsNotExist err) eqn:Hne; [| done].
    intros [= <-]. split; [| done].
    intros rel. eapply look_under_missing, Stat_not_exist; eauto.
  - destruct (os_RemoveAll dst fs) as [fs' [e|]] eqn:Hrm; [done |].
    intros [= <-]. pose proof (RemoveAll_ok _ _ _ Hrm) as Hlook.
    split.
    + intros rel. by rewrite Hlook, within_app.
    + intros q Hq. by rewrite Hlook, Hq.
Qed.

(** What every path holds after a successful [ReplaceWithCopy] between
    two different paths; neither path then lies under the other. *)
Lemma copy_look (src dst : path) (fs fs' : Disk) :
  src ≠ dst →
  ReplaceWithCopy src dst fs = (fs', inr tt) →
  look fs src = Some Dir ∧ strip src dst = None ∧ strip dst src = None ∧
  ∀ q, look fs' q =
       match strip dst q with
       | Some rel => look fs (src ++ rel)
       | None => if within q dst then Some Dir else look fs q
       end.
Proof.
  intros Hne. unfold ReplaceWithCopy, bind.
  destruct (removeExisting dst fs) as [fs1 [e|[]]] eqn:Hrm; [done |].
  apply removeExisting_ok in Hrm as [Hgone Hrest].
  unfold wrapf, check.
  destruct (os_MkdirAll dst fs1) as [fs2 [e|]] eqn:Hmk; [done |].
  destruct (copy_Copy src dst fs2) as [fs3 [e|]] eqn:Hcp; [done |].
  intros [= <-].
  pose proof (MkdirAll_ok _ _ _ Hmk) as Hlook2.
  assert (look fs2 dst = Some Dir) as Hdir by (by rewrite Hlook2, within_refl).
  destruct (Copy_ok _ _ _ _ Hcp Hdir) as (Hsrc & Hinto & Hlook3).
  assert (strip src dst = None) as Hsd.
  { apply within_false. destruct (within src dst) eqn:E; [| done].
    by destruct (Hne (Hinto eq_refl)). }
  assert (strip dst src = None) as Hds.
  { apply within_false. destruct (within dst src) eqn:E; [| done].
    apply within_true in E as [rel ->].
    rewrite Hlook2, (proj2 (within_false _ _) Hsd), Hgone in Hsrc. done. }
  specialize (Hlook3 Hsd Hds).
  assert (∀ rel, look fs2 (src ++ rel) = look fs (src ++ rel)) as Hkept.
  { intros rel. rewrite Hlook2.
    rewrite (disjoint_above src dst dst rel Hsd (within_refl dst)).
    apply Hrest, within_false. by apply disjoint_under. }
  split; [by rewrite <-(app_nil_r src), <-Hkept, app_nil_r |].
  split; [done |]. split; [done |].
  intros q. rewrite Hlook3.
  destruct (strip dst q) as [rel|] eqn:Hq.
  - apply strip_Some in Hq as ->. rewrite Hkept.
    destruct (look fs (src ++ rel)) as [n|] eqn:Hn; [done |].
    rewrite Hlook2. destruct rel as [|c rel].
    { rewrite <-Hkept, app_nil_r, Hsrc in Hn. done. }
    destruct (within (dst ++ c :: rel) dst) eqn:E; [| apply Hgone].
    apply within_true in E as [rel' E]. apply (f_equal length) in E.
    rewrite !length_app in E. simpl in E. lia.
  - rewrite Hlook2. destruct (within q dst); [done |].
    by apply Hrest, within_false.
Qed.

(** C9, as the code has it. For [src] and [dst] that are not the same
    path: a stat error other than "not found" is returned wrapped and
    nothing is done; a failure to remove an existing [dst] is returned
    wrapped; when the call succeeds, [dst] holds what [src] held, path by
    path, and [src] holds what it held before the call. The copy is
    independent: the two trees share no path, so that removing either
    afterwards leaves the other as it is. *)
Theorem ReplaceWithCopy_spec (src dst : path) (fs : Disk) :
  src ≠ dst →
  (∀ err, os_Stat dst fs = Some err → os_IsNotExist err = false →
     ReplaceWithCopy src dst fs
     = (fs, inl (Errorf ("stat " +:+ path_string dst +:+ ": ") err))) ∧
  (∀ fs1 e, os_Stat dst fs = None → os_RemoveAll dst fs = (fs1, Some e) →
     ReplaceWithCopy src dst fs
     = (fs1, inl (Errorf "remove existing bundle: " e))) ∧
  (∀ fs', ReplaceWithCopy src dst fs = (fs', inr tt) →
     (∀ rel, look fs' (dst ++ rel) = look fs (src ++ rel)) ∧
     (∀ rel, look fs' (src ++ rel) = look fs (src ++ rel)) ∧
     within src dst = false ∧ within dst src = false ∧
     (∀ fs'', os_RemoveAll dst fs' = (fs'', None) →
        ∀ rel, look fs'' (src ++ rel) = look fs (src ++ rel)) ∧
     (∀ fs'', os_RemoveAll src fs' = (fs'', None) →
        ∀ rel, look fs'' (dst ++ rel) = look fs (src ++ rel))).
Proof.
  intros Hne. unfold ReplaceWithCopy, bind.
  split; [| split].
  - intros err Hstat Hfatal. unfold removeExisting. by rewrite Hstat, Hfatal.
  - intros fs1 e Hstat Hrm. unfold removeExisting, wrapf, check.
    by rewrite Hstat, Hrm.
  - intros fs' (_ & Hsd & Hds & Hlook)%(copy_look src dst fs fs' Hne).
    assert (∀ rel, look fs' (dst ++ rel) = look fs (src ++ rel)) as Hcopy.
    { intros rel. by rewrite Hlook, strip_app. }
    assert (∀ rel, look fs' (src ++ rel) = look fs (src ++ rel)) as Hkept.
    { intros rel. rewrite Hlook, (disjoint_under _ _ rel Hsd Hds).
      by rewrite (disjoint_above src dst dst rel Hsd (within_refl dst)). }
    split; [done |]. split; [done |].
    split; [by apply within_false |]. split; [by apply within_false |].
    split; intros fs'' Hrm rel; rewrite (RemoveAll_ok _ _ _ Hrm).
    + by rewrite (proj2 (within_false _ _) (disjoint_under _ _ rel Hsd Hds)).
    + by rewrite (proj2 (within_false _ _) (disjoint_under _ _ rel Hds Hsd)).
Qed.

End ReplaceFacts.

(** ** The file system of trees satisfies the laws *)

Section TreeFacts.

Import Filesys.

Lemma subtree_app (t : tree) (p rel : path) :
  subtree t (p ++ rel) = subtree t p ≫= λ t', subtree t' rel.
Proof.
  revert t. induction p as [|c p IH]; intros t; simpl; [done |].
  destruct t as [|m]; [done |]. destruct (m !! c); [apply IH | done].
Qed.

Lemma tree_look_cons (t : tree) (c : string) (p : path) :
  tree_look t (c :: p) = node_of <$> subtree t (c :: p).
Proof. done. Qed.

Lemma node_of_prune (p : path) (t : tree) :
  p ≠ [] → node_of (prune p t) = node_of t.
Proof.
  destruct p as [|c [|c' p]]; [done | |]; intros _; by destruct t.
Qed.

Lemma look_prune (p : path) (t : tree) (q : path) :
  p ≠ [] →
  node_of <$> subtree (prune p t) q
  = if within p q then None else node_of <$> subtree t q.
Proof.
  revert t q. induction p as [|c p IH]; intros t q Hp; [done |].
  destruct q as [|d q].
  { change (within (c :: p) []) with false. simpl subtree.
    simpl. f_equal. by apply (node_of_prune (c :: p)). }
  destruct t as [|m].
  { simpl. by destruct (within _ _). }
  unfold within. simpl strip.
  destruct p as [|c' p].
  - simpl. destruct (decide (c = d)) as [->|Hne].
    + by rewrite lookup_delete_eq.
    + rewrite lookup_delete_ne by done. done.
  - simpl prune. simpl subtree. destruct (decide (c = d)) as [->|Hne].
    + rewrite lookup_alter_eq. destruct (m !! d) as [t'|] eqn:Hd; simpl.
      * apply (IH t' q). done.
      * by repeat case_match.
    + by rewrite lookup_alter_ne.
Qed.

Lemma prune_missing (p : path) (t : tree) :
  subtree t p = None → prune p t = t.
Proof.
  revert t. induction p as [|c p IH]; intros t; [done |].
  destruct t as [|m]; [done |]. simpl.
  destruct p as [|c' p].
  - destruct (m !! c) eqn:Hc; [done |]. intros _. by rewrite delete_id.
  - intros Hsub. f_equal. apply alter_id. intros t' Ht'.
    rewrite Ht' in Hsub. by apply IH.
Qed.

Lemma look_mkdirs (p : path) (t t' : tree) (q : path) :
  mkdirs p t = Some t' →
  node_of <$> subtree t' q
  = if within q p then Some Dir else node_of <$> subtree t q.
Proof.
  revert t t' q. induction p as [|c p IH]; intros t t' q.
  - simpl. destruct t as [|m]; [done |]. intros [= <-].
    destruct q as [|d q]; [done |]. done.
  - simpl. destruct t as [|m]; [done |].
    destruct (mkdirs p _) as [t1|] eqn:Hmk; [| done]. intros [= <-].
    destruct q as [|d q]; [done |].
    unfold within. simpl. destruct (decide (d = c)) as [->|Hne].
    + rewrite lookup_insert_eq. rewrite (IH _ _ q Hmk). unfold within.
      destruct (strip q p) eqn:Hq; [done |].
      destruct (m !! c); [done |]. simpl.
      destruct q as [|d' q]; [by destruct p |]. done.
    + by rewrite lookup_insert_ne.
Qed.

Lemma filepath_Dir_cons (c c' : string) (p : path) :
  filepath_Dir (c :: c' :: p) = c :: filepath_Dir (c' :: p).
Proof. unfold filepath_Dir. simpl. by rewrite Nat.sub_0_r. Qed.

Lemma look_graft (dst : path) (new t : tree) (q : path) :
  dst ≠ [] →
  node_of <$> subtree t (filepath_Dir dst) = Some Dir →
  node_of <$> subtree (graft dst new t) q
  = match strip dst q with
    | Some rel => node_of <$> subtree new rel
    | None => node_of <$> subtree t q
    end.
Proof.
  revert t q. induction dst as [|c p IH]; intros t q Hne Hdir; [done |].
  destruct p as [|c' p].
  - change (filepath_Dir [c]) with (@nil string) in Hdir. simpl in Hdir.
    destruct t as [|m]; [done |]. simpl.
    destruct q as [|d q]; [done |]. simpl.
    destruct (decide (c = d)) as [->|Hcd].
    + by rewrite lookup_insert_eq.
    + by rewrite lookup_insert_ne.
  - rewrite filepath_Dir_cons in Hdir.
    destruct t as [|m]; [done |]. simpl in Hdir.
    destruct (m !! c) as [t1|] eqn:Hc; [| done].
    change (graft (c :: c' :: p) new (TDir m))
      with (TDir (<[c := graft (c' :: p) new (default (TDir ∅) (m !! c))]> m)).
    rewrite Hc. simpl default.
    destruct q as [|d q]; [done |].
    simpl strip. simpl subtree.
    destruct (decide (c = d)) as [->|Hcd].
    + rewrite lookup_insert_eq, Hc. by apply IH.
    + by rewrite lookup_insert_ne.
Qed.

Lemma rooted_look (t : tree) (q : path) :
  rooted t = true → tree_look t q = node_of <$> subtree t q.
Proof. destruct q; [by destruct t | done]. Qed.

Lemma subtree_rooted (t s : tree) (p : path) :
  p ≠ [] → subtree t p = Some s → rooted t = true.
Proof. destruct p; [done |]. by destruct t. Qed.

Lemma subtree_parent (t s : tree) (p : path) :
  p ≠ [] → subtree t p = Some s →
  node_of <$> subtree t (filepath_Dir p) = Some Dir.
Proof.
  revert t. induction p as [|c p IH]; intros t Hne; [done |].
  destruct t as [|m]; [done |]. destruct p as [|c' p]; [done |].
  rewrite filepath_Dir_cons. simpl. destruct (m !! c); [| done].
  by apply IH.
Qed.

Lemma overlap_false (p q : path) :
  overlap p q = false → strip p q = None ∧ strip q p = None.
Proof.
  unfold overlap, within. by destruct (strip p q), (strip q p).
Qed.

Lemma disjoint_nonempty (p q : path) : strip p q = None → p ≠ [].
Proof. by destruct p. Qed.

Lemma strip_within (p q : path) : strip p q = None → within p q = false.
Proof. unfold within. by intros ->. Qed.

Lemma within_Dir_trans (p q : path) :
  within p (filepath_Dir q) = true → within p q = true.
Proof.
  unfold within. destruct (strip p (filepath_Dir q)) as [rel|] eqn:E; [| done].
  intros _. unfold filepath_Dir in E.
  revert E. generalize (length q - 1). intros n E.
  rewrite <-(take_drop n q). revert E. generalize (take n q) (drop n q).
  clear. intros a b. revert a. induction p as [|c p IH]; intros a; simpl; [done |].
  destruct a as [|d a]; [done |]. simpl.
  destruct (decide (c = d)); [apply IH | done].
Qed.


Lemma tree_look_under_missing (t : tree) (p rel : path) :
  tree_look t p = None → tree_look t (p ++ rel) = None.
Proof.
  destruct p as [|c p]; [done |]. intros Hp.
  change (node_of <$> subtree t (c :: p) = None) in Hp.
  change (node_of <$> subtree t ((c :: p) ++ rel) = None).
  rewrite subtree_app. by destruct (subtree t (c :: p)).
Qed.

Lemma tree_Stat_not_exist (p : path) (t : tree) (err : error) :
  tree_Stat p t = Some err → tree_IsNotExist err = true → tree_look t p = None.
Proof. unfold tree_Stat. by destruct (tree_look t p). Qed.

Lemma tree_RemoveAll_ok (p : path) (t t' : tree) :
  tree_RemoveAll p t = (t', None) →
  ∀ q, tree_look t' q = if within p q then None else tree_look t q.
Proof.
  unfold tree_RemoveAll. destruct p as [|c p]; [done |]. intros [= <-] q.
  destruct q as [|d q]; [done |].
  exact (look_prune (c :: p) t (d :: q) ltac:(done)).
Qed.

Lemma tree_MkdirAll_ok (p : path) (t t' : tree) :
  tree_MkdirAll p t = (t', None) →
  ∀ q, tree_look t' q = if within q p then Some Dir else tree_look t q.
Proof.
  unfold tree_MkdirAll.
  destruct (mkdirs p t) as [t1|] eqn:Hmk; [| done]. intros [= <-] q.
  destruct q as [|d q]; [done |]. by apply look_mkdirs.
Qed.

Lemma tree_Rename_ok (src dst : path) (t t' : tree) :
  tree_Rename src dst t = (t', None) →
  tree_look t src ≠ None ∧
  ((src = dst ∧ ∀ q, tree_look t' q = tree_look t q) ∨
   (strip src dst = None ∧ strip dst src = None ∧
    ∀ q, tree_look t' q =
         match strip dst q with
         | Some rel => tree_look t (src ++ rel)
         | None => if within src q then None else tree_look t q
         end)).
Proof.
  unfold tree_Rename.
  destruct (tree_look t src) as [n|] eqn:Hsrc; [| done].
  destruct (subtree t src) as [s|] eqn:Hsub; [| done].
  destruct (decide (src = dst)) as [->|Hne].
  { intros [= <-]. split; [done |]. by left. }
  destruct (overlap src dst) eqn:Hov; [done |].
  apply overlap_false in Hov as [Hsd Hds].
  destruct (tree_look t dst) eqn:Hdst; [done |].
  destruct (tree_look t (filepath_Dir dst)) as [[|]|] eqn:Hparent;
    [done | | done].
  intros [= <-]. split; [done |]. right. do 2 (split; [done |]).
  pose proof (disjoint_nonempty _ _ Hsd) as Hsrc0.
  pose proof (disjoint_nonempty _ _ Hds) as Hdst0.
  pose proof (subtree_rooted _ _ _ Hsrc0 Hsub) as Hroot.
  assert (node_of <$> subtree (prune src t) (filepath_Dir dst) = Some Dir)
    as Hparent'.
  { rewrite look_prune by done.
    destruct (within src (filepath_Dir dst)) eqn:E.
    - apply within_Dir_trans in E. by rewrite (strip_within _ _ Hsd) in E.
    - by rewrite <-rooted_look. }
  intros q. destruct q as [|d q].
  { destruct dst; [done |]. by destruct src. }
  change (tree_look ?x (d :: q)) with (node_of <$> subtree x (d :: q)).
  rewrite (look_graft dst s _ (d :: q) Hdst0 Hparent').
  destruct (strip dst (d :: q)) as [rel|] eqn:Hq.
  - destruct src as [|c src]; [done |].
    change (tree_look t ((c :: src) ++ rel))
      with (node_of <$> subtree t ((c :: src) ++ rel)).
    by rewrite subtree_app, Hsub.
  - by rewrite look_prune.
Qed.

Lemma tree_Copy_disjoint (src dst : path) (t t' : tree) :
  tree_Copy src dst t = (t', None) →
  strip src dst = None → strip dst src = None →
  tree_look t dst = Some Dir →
  tree_look t src = Some Dir ∧
  ∀ q, tree_look t' q =
       match strip dst q with
       | Some rel =>
           match tree_look t (src ++ rel) with
           | Some n => Some n
           | None => tree_look t q
           end
       | None => tree_look t q
       end.
Proof.
  unfold tree_Copy. intros Hcp Hsd Hds _.
  pose proof (disjoint_nonempty _ _ Hsd) as Hsrc0.
  pose proof (disjoint_nonempty _ _ Hds) as Hdst0.
  destruct (subtree t src) as [[|m]|] eqn:Hsub;
    destruct (subtree t dst) as [[|d]|] eqn:Hdst; try done.
  destruct (decide (src = dst)) as [->|Hne].
  { apply strip_within in Hsd. by rewrite within_refl in Hsd. }
  unfold overlap in Hcp.
  rewrite (strip_within _ _ Hsd), (strip_within _ _ Hds) in Hcp. simpl in Hcp.
  destruct (decide (size d = 0)) as [Hd%map_size_empty_inv|]; [subst d | done].
  destruct dst as [|c0 dst0] eqn:Edst; [done |]. rewrite <-Edst in *.
  injection Hcp as <-.
  pose proof (subtree_rooted _ _ _ Hsrc0 Hsub) as Hroot.
  split.
  { destruct src; [done |].
    change (node_of <$> subtree t (s :: src) = Some Dir). by rewrite Hsub. }
  intros q. destruct q as [|e q].
  { rewrite Edst. simpl. by destruct t. }
  change (tree_look ?x (e :: q)) with (node_of <$> subtree x (e :: q)).
  rewrite (look_graft dst (TDir m) t (e :: q) Hdst0 (subtree_parent _ _ _ Hdst0 Hdst)).
  destruct (strip dst (e :: q)) as [rel|] eqn:Hq; [| done].
  rewrite (strip_Some _ _ _ Hq), (subtree_app t dst), Hdst.
  destruct src as [|c src]; [done |].
  change (tree_look t ((c :: src) ++ rel))
    with (node_of <$> subtree t ((c :: src) ++ rel)).
  rewrite subtree_app, Hsub.
  destruct rel as [|r rel]; [done |]. simpl. rewrite lookup_empty.
  by repeat case_match.
Qed.

Lemma tree_Copy_ok (src dst : path) (t t' : tree) :
  tree_Copy src dst t = (t', None) →
  tree_look t dst = Some Dir →
  tree_look t src = Some Dir ∧
  (within src dst = true → src = dst) ∧
  (strip src dst = None → strip dst src = None →
   ∀ q, tree_look t' q =
        match strip dst q with
        | Some rel =>
            match tree_look t (src ++ rel) with
            | Some n => Some n
            | None => tree_look t q
            end
        | None => tree_look t q
        end).
Proof.
  intros Hcp Hdir. split; [| split].
  - unfold tree_Copy in Hcp.
    destruct (subtree t src) as [[|m]|] eqn:Hsub;
      destruct (subtree t dst) as [[|d]|]; try done.
    destruct src as [|c src]; [done |].
    change (node_of <$> subtree t (c :: src) = Some Dir). by rewrite Hsub.
  - intros Hinto. unfold tree_Copy in Hcp.
    destruct (subtree t src) as [[|m]|];
      destruct (subtree t dst) as [[|d]|]; try done.
    destruct (decide (src = dst)); [done |].
    unfold overlap in Hcp. by rewrite Hinto in Hcp.
  - intros Hsd Hds. by eapply tree_Copy_disjoint.
Qed.

#[export] Instance tree_OSLaws : OSLaws tree.
Proof.
  split.
  - done.
  - apply tree_look_under_missing.
  - apply tree_Stat_not_exist.
  - apply tree_RemoveAll_ok.
  - apply tree_MkdirAll_ok.
  - apply tree_Rename_ok.
  - apply tree_Copy_ok.
Qed.

End TreeFacts.

Section ReplaceExamples.

Import Filesys.

Lemma ReplaceWithMove_spec_witness :
  (∀ fs1 e, os_RemoveAll ["dst"] sample = (fs1, Some e) →
     ReplaceWithMove ["src"] ["dst"] sample
     = (fs1, inl (Errorf "remove existing dir: " e))) ∧
  (∀ fs1 fs2 e,
     os_RemoveAll ["dst"] sample = (fs1, None) →
     os_MkdirAll (filepath_Dir ["dst"]) fs1 = (fs2, Some e) →
     ReplaceWithMove ["src"] ["dst"] sample
     = (fs2, inl (Errorf "create directory: " e))) ∧
  (∀ fs1 fs2 fs3 e,
     os_RemoveAll ["dst"] sample = (fs1, None) →
     os_MkdirAll (filepath_Dir ["dst"]) fs1 = (fs2, None) →
     os_Rename ["src"] ["dst"] fs2 = (fs3, Some e) →
     ReplaceWithMove ["src"] ["dst"] sample
     = (fs3, inl (Errorf ("move " +:+ path_string ["src"] +:+ " -> "
                            +:+ path_string ["dst"] +:+ ": ") e))) ∧
  (∀ fs1 fs2 fs3,
     os_RemoveAll ["dst"] sample = (fs1, None) →
     os_MkdirAll (filepath_Dir ["dst"]) fs1 = (fs2, None) →
     os_Rename ["src"] ["dst"] fs2 = (fs3, None) →
     ReplaceWithMove ["src"] ["dst"] sample = (fs3, inr tt)) ∧
  (∀ fs', ReplaceWithMove ["src"] ["dst"] sample = (fs', inr tt) →
     ∃ fs1 fs2,
       os_RemoveAll ["dst"] sample = (fs1, None) ∧
       os_MkdirAll (filepath_Dir ["dst"]) fs1 = (fs2, None) ∧
       os_Rename ["src"] ["dst"] fs2 = (fs', None) ∧
       (∀ rel, look fs' (["dst"] ++ rel) = look sample (["src"] ++ rel)) ∧
       (∀ rel, look fs' (["src"] ++ rel) = None)).
Proof. exact (ReplaceWithMove_spec (H0:=tree_OSLaws) ["src"] ["dst"] sample). Defined.

(** The move on the sample disk: [/dst/f] is the former [/src/f], the old
    content of [/dst] and [/src] itself are gone. *)
Example ReplaceWithMove_sample :
  let r := ReplaceWithMove ["src"] ["dst"] sample in
  r.2 = inr tt ∧
  look r.1 ["dst"; "f"] = Some (File (String.list_byte_of_string "hello")) ∧
  look r.1 ["dst"; "old"] = None ∧
  look r.1 ["src"] = None.
Proof. vm_compute. done. Qed.

Lemma ReplaceWithCopy_spec_witness :
  (∀ err, os_Stat ["dst"] sample = Some err → os_IsNotExist err = false →
     ReplaceWithCopy ["src"] ["dst"] sample
     = (sample, inl (Errorf ("stat " +:+ path_string ["dst"] +:+ ": ") err))) ∧
  (∀ fs1 e, os_Stat ["dst"] sample = None →
     os_RemoveAll ["dst"] sample = (fs1, Some e) →
     ReplaceWithCopy ["src"] ["dst"] sample
     = (fs1, inl (Errorf "remove existing bundle: " e))) ∧
  (∀ fs', ReplaceWithCopy ["src"] ["dst"] sample = (fs', inr tt) →
     (∀ rel, look fs' (["dst"] ++ rel) = look sample (["src"] ++ rel)) ∧
     (∀ rel, look fs' (["src"] ++ rel) = look sample (["src"] ++ rel)) ∧
     within ["src"] ["dst"] = false ∧ within ["dst"] ["src"] = false ∧
     (∀ fs'', os_RemoveAll ["dst"] fs' = (fs'', None) →
        ∀ rel, look fs'' (["src"] ++ rel) = look sample (["src"] ++ rel)) ∧
     (∀ fs'', os_RemoveAll ["src"] fs' = (fs'', None) →
        ∀ rel, look fs'' (["dst"] ++ rel) = look sample (["src"] ++ rel))).
Proof.
  apply (ReplaceWithCopy_spec (H0:=tree_OSLaws) ["src"] ["dst"] sample).
  discriminate.
Defined.

Example ReplaceWithCopy_sample :
  let r := ReplaceWithCopy ["src"] ["dst"] sample in
  r.2 = inr tt ∧
  look r.1 ["dst"; "f"] = Some (File (String.list_byte_of_string "hello")) ∧
  look r.1 ["dst"; "old"] = None ∧
  look r.1 ["src"; "f"] = Some (File (String.list_byte_of_string "hello")).
Proof. vm_compute. done. Qed.

(** Between two paths one of which lies under the other the call fails:
    into its own tree the copy is refused, and a source under [dst] is
    gone when the copy starts. *)
Example ReplaceWithCopy_nested :
  (ReplaceWithCopy ["src"] ["src"; "sub"] sample).2
  = inl (Errorf "copy /src -> /src/sub: " ErrInvalid) ∧
  (ReplaceWithCopy ["src"; "f"] ["src"] sample).2
  = inl (Errorf "copy /src/f -> /src: " ErrNotExist).
Proof. vm_compute. done. Qed.

(** C9 as written fails: copying a directory onto itself succeeds and
    leaves it empty. *)
Lemma ReplaceWithCopy_onto_itself :
  (ReplaceWithCopy ["src"] ["src"] sample).2 = inr tt ∧
  look sample ["src"; "f"] = Some (File (String.list_byte_of_string "hello")) ∧
  look (ReplaceWithCopy ["src"] ["src"] sample).1 ["src"; "f"] = None.
Proof. vm_compute. done. Qed.

End ReplaceExamples.

(** ** The bundle's dictionaries *)

Section DictionaryFacts.

Import Bundle.
Context `{Collaborators Entry}.

(** The loop fails with the error of the first file that cannot be opened
    or decoded, wrapped. *)
Lemma readDictionaries_fails (baseDir : string) (dicts : list string)
    (acc : gmap string Entry) (err : error) :
  readDictionaries baseDir dicts acc = inl err →
  ∃ dict cause, dict ∈ dicts ∧
    ((os_Open (path_Join [baseDir; dict]) = inl cause ∧
      err = Errorf "open dictionary file: " cause) ∨
     (∃ file, os_Open (path_Join [baseDir; dict]) = inr file ∧
              json_Decode file = inl cause ∧
              err = Errorf "validate dictionary: "
                      (Errorf "decode dictionary: " cause))).
Proof.
  revert acc. induction dicts as [|dict rest IH]; intros acc; simpl; [done |].
  destruct (os_Open _) as [cause|file] eqn:Hopen.
  - intros [= <-]. exists dict, cause. split; [by left | by left].
  - unfold validateDictionary.
    destruct (json_Decode file) as [cause|entry] eqn:Hdecode.
    + intros [= <-]. exists dict, cause. split; [by left |]. right. eauto.
    + intros (d & cause & Hd & Hcause)%IH. exists d, cause.
      split; [by right | done].
Qed.

(** The loop inserts the entry of each file under the file's base name,
    over what the map held. *)
Lemma readDictionaries_ok (baseDir : string) (dicts : list string)
    (acc m : gmap string Entry) :
  readDictionaries baseDir dicts acc = inr m →
  dom m = dom acc ∪ list_to_set (lang baseDir <$> dicts) ∧
  (∀ k, k ∉ lang baseDir <$> dicts → m !! k = acc !! k) ∧
  (∀ pre dict post, dicts = pre ++ dict :: post →
     lang baseDir dict ∉ lang baseDir <$> post →
     ∃ entry, decodes baseDir dict entry ∧ m !! lang baseDir dict = Some entry) ∧
  (∀ dict, dict ∈ dicts → ∃ entry, decodes baseDir dict entry).
Proof.
  revert acc. induction dicts as [|d rest IH]; intros acc; simpl.
  - intros [= <-]. split; [by rewrite union_empty_r_L |]. split; [done |].
    split; [| by intros dict ?%elem_of_nil].
    intros pre dict post Hnil. by destruct pre.
  - destruct (os_Open _) as [cause|file] eqn:Hopen; [done |].
    unfold validateDictionary.
    destruct (json_Decode file) as [cause|entry] eqn:Hdecode; [done |].
    intros (Hdom & Hold & Hnew & Hall)%IH. fold (lang baseDir d) in *.
    split; [| split; [| split]].
    + rewrite Hdom, dom_insert_L, !assoc_L by apply _.
      f_equal. apply comm_L, _.
    + intros k [Hk Hrest]%not_elem_of_cons.
      rewrite Hold by done. by rewrite lookup_insert_ne.
    + intros pre dict post Hsplit Hlast. destruct pre as [|d' pre].
      * injection Hsplit as -> ->. exists entry. split; [by exists file |].
        rewrite Hold by done. by rewrite lookup_insert_eq.
      * injection Hsplit as -> ->. by eapply Hnew.
    + intros dict [->|Hdict]%elem_of_cons; [| by apply Hall].
      exists entry. by exists file.
Qed.

(** C10, as the code has it. When a listed file cannot be opened or
    decoded, [GetDictionaries] returns the zero value, whose map is nil, and
    an error: the wrapped error of the first listed file that fails.
    Otherwise it returns a map whose keys are the
    base names of the listed files; each key holds the entry decoded from
    the last listed file of that base name, so that the map has one entry per
    listed file when the base names are distinct. *)
Theorem GetDictionaries_spec (b : Bundle) :
  (∀ dict, dict ∈ Dictionaries (Index_ b) →
     (∀ entry, ¬ decodes (BaseDir b) dict entry) →
     ∃ err, GetDictionaries b = (Dictionaries_zero, Some err)) ∧
  (∀ err, (GetDictionaries b).2 = Some err →
     (GetDictionaries b).1 = Dictionaries_zero ∧
     ∃ dict cause, dict ∈ Dictionaries (Index_ b) ∧
       ((os_Open (path_Join [BaseDir b; dict]) = inl cause ∧
         err = Errorf "open dictionary file: " cause) ∨
        (∃ file, os_Open (path_Join [BaseDir b; dict]) = inr file ∧
                 json_Decode file = inl cause ∧
                 err = Errorf "validate dictionary: "
                         (Errorf "decode dictionary: " cause)))) ∧
  ((GetDictionaries b).2 = None →
     ∃ m, Dictionaries_map (GetDictionaries b).1 = Some m ∧
       dom m = list_to_set (lang (BaseDir b) <$> Dictionaries (Index_ b)) ∧
       (∀ pre dict post, Dictionaries (Index_ b) = pre ++ dict :: post →
          lang (BaseDir b) dict ∉ lang (BaseDir b) <$> post →
          ∃ entry, decodes (BaseDir b) dict entry ∧
                   m !! lang (BaseDir b) dict = Some entry) ∧
       (NoDup (lang (BaseDir b) <$> Dictionaries (Index_ b)) →
          size m = length (Dictionaries (Index_ b)))).
Proof.
  unfold GetDictionaries.
  destruct (readDictionaries _ _ ∅) as [e|m] eqn:Hread; simpl.
  - split; [by eauto |]. split; [| done]. intros err [= <-]. split; [done |].
    by eapply readDictionaries_fails.
  - apply readDictionaries_ok in Hread as (Hdom & _ & Hnew & Hall).
    split; [intros dict [entry Hentry]%Hall Hnone; by destruct (Hnone entry) |].
    split; [done |]. intros _. exists m. split; [done |].
    rewrite dom_empty_L, union_empty_l_L in Hdom.
    split; [done |]. split; [done |].
    intros Hnodup. rewrite <-size_dom, Hdom, size_list_to_set by done.
    by rewrite length_fmap.
Qed.

End DictionaryFacts.

Section DictionaryExamples.

Import Bundle BundleExamples.

(** C10 as written fails: two listed files share the base name [en]; the
    map has one entry, the one of the file listed last. *)
Lemma GetDictionaries_same_base_name :
  (GetDictionaries (app ["i18n/en.json"; "legacy/en.json"])).2 = None ∧
  Dictionaries_map (GetDictionaries (app ["i18n/en.json"; "legacy/en.json"])).1
  = Some {[ "en" := "howdy" ]} ∧
  size ({[ "en" := "howdy" ]} : gmap string string)
  ≠ length (Dictionaries (Index_ (app ["i18n/en.json"; "legacy/en.json"]))).
Proof. vm_compute. repeat split; discriminate. Qed.

(** A file that cannot be decoded: the zero value and the wrapped error. *)
Example GetDictionaries_undecodable :
  GetDictionaries (app ["i18n/en.json"; "i18n/xx.json"])
  = (Dictionaries_zero,
     Some (Errorf "validate dictionary: "
             (Errorf "decode dictionary: " (ErrNew "EOF")))).
Proof. vm_compute. reflexivity. Qed.

End DictionaryExamples.

(** * Further properties *)

(** ** The manifest after lines 56-80 *)

Section ReconcileMore.

Import Pacman.

Lemma firstSeen_elem_of (l : list string) (x : string) :
  x ∈ firstSeen l ↔ x ∈ l.
Proof.
  induction l as [|y l IH]; simpl; [done |].
  rewrite !elem_of_cons, list_elem_of_filter, IH.
  destruct (decide (x = y)); tauto.
Qed.

Lemma NoDup_firstSeen (l : list string) : NoDup (firstSeen l).
Proof.
  induction l as [|y l IH]; simpl; [constructor |].
  apply NoDup_cons. split; [| by apply NoDup_filter].
  by intros [? _]%list_elem_of_filter.
Qed.

Variable parse : string → string * string.

Lemma dropReplaced_elem_of (replaced : gset string) (idx : list string)
    (d : string) :
  d ∈ (if decide (size replaced ≠ 0) then dropReplaced parse replaced idx
       else idx)
  ↔ d ∈ idx ∧ depName parse d ∉ replaced.
Proof.
  destruct (decide (size replaced ≠ 0)) as [|Hz].
  - unfold dropReplaced. rewrite list_elem_of_filter. tauto.
  - assert (replaced = ∅) as -> by (apply leibniz_equiv, size_empty_inv; lia).
    split; [| tauto]. intros Hd. split; [done | apply not_elem_of_empty].
Qed.

Lemma reconcile_requested (replaced : gset string) (depends idx : list string)
    (d : string) :
  d ∈ depends → d ∈ reconcile parse replaced depends idx.
Proof.
  intros Hd. unfold reconcile. cbv zeta.
  rewrite foldl_addIfMissing, elem_of_app, firstSeen_elem_of, list_elem_of_filter.
  destruct (decide (d ∈ (if decide (size replaced ≠ 0)
                          then dropReplaced parse replaced idx else idx)));
    tauto.
Qed.

(** What lines 56-80 leave in the manifest: the requested specs, and the
    former entries whose parsed name was not superseded. Nothing else gets
    in and none of those is lost. *)
Theorem reconcile_elem_of (replaced : gset string) (depends idx : list string)
    (d : string) :
  d ∈ reconcile parse replaced depends idx
  ↔ d ∈ depends ∨ (d ∈ idx ∧ depName parse d ∉ replaced).
Proof.
  pose proof (dropReplaced_elem_of replaced idx d) as Hkept.
  unfold reconcile. cbv zeta.
  rewrite foldl_addIfMissing, elem_of_app, firstSeen_elem_of, list_elem_of_filter.
  destruct (decide (d ∈ idx ∧ depName parse d ∉ replaced)); tauto.
Qed.

(** Lines 56-80 never list a spec string twice: a manifest without
    repeated strings stays so, whatever is requested, repeats included. *)
Theorem reconcile_NoDup (replaced : gset string) (depends idx : list string) :
  NoDup idx → NoDup (reconcile parse replaced depends idx).
Proof.
  intros Hidx. unfold reconcile. cbv zeta. rewrite foldl_addIfMissing.
  apply NoDup_app. split; [| split].
  - destruct (decide _); [by apply NoDup_filter | done].
  - intros d Hd. rewrite firstSeen_elem_of, list_elem_of_filter. tauto.
  - apply NoDup_firstSeen.
Qed.

(** Requesting again what the manifest already lists, with nothing
    superseded, changes nothing: lines 68-80 are idempotent. *)
Theorem reconcile_again (replaced : gset string) (depends idx : list string) :
  reconcile parse ∅ depends (reconcile parse replaced depends idx)
  = reconcile parse replaced depends idx.
Proof.
  rewrite (reconcile_nothing_replaced parse depends).
  rewrite filter_none; [by rewrite app_nil_r |].
  intros d Hd Hnew. by apply Hnew, reconcile_requested.
Qed.

End ReconcileMore.

Section ReconcileMoreExamples.

Import Pacman Examples.

Lemma reconcile_NoDup_witness :
  NoDup (reconcile (cut at_sign) {["A"]} ["A@2"; "C"; "A@2"] ["A@1"; "B@1"]).
Proof.
  apply (reconcile_NoDup (cut at_sign) {["A"]} ["A@2"; "C"; "A@2"] ["A@1"; "B@1"]).
  refine (bool_decide_unpack _ _). vm_compute. exact I.
Defined.

End ReconcileMoreExamples.

(** ** The installer: persistence *)

Section InstallerMore.

Import Pacman.
Context `{Collaborators W}.

(** When the install step and both saves succeed, [InstallNewDependencies]
    returns the names the resolver installed; after the calls of the install
    step it saves the manifest, then the lock, and makes no other call. The
    manifest it saves is the reconciled one, the lock the one the install
    step left. *)
Theorem InstallNewDependencies_persists (depends : list string) (replace : bool)
    (s s1 : State W) (installed : list string) (replaced : gset string)
    (w3 w4 : W) :
  installDependencies depends replace s = (s1, inr (installed, replaced)) →
  let s2 := reconcileManifest replaced depends s1 in
  SaveIndex (Package_ (pm s2)) (world s2) = (w3, None) →
  SaveIndexLock (Package_ (pm s2)) w3 = (w4, None) →
  let r := InstallNewDependencies depends replace s in
  r.2 = inr installed ∧
  pm r.1 = pm s2 ∧ world r.1 = w4 ∧
  calls r.1 = calls s1 ++ [CallSaveIndex (Package_Index (Package_ (pm s2)));
                           CallSaveIndexLock (Package_IndexLock (Package_ (pm s1)))] ∧
  Index_Depends (Package_Index (Package_ (pm s2)))
  = reconcile ParseIndexDependency replaced depends (manifest (pm s1)).
Proof.
  intros Hinstall s2 Hsave Hlock r. unfold r.
  assert (s2 = reconcileManifest replaced depends s1) as Hs2 by done.
  assert (manifest (pm s2)
          = reconcile ParseIndexDependency replaced depends (manifest (pm s1)))
    as Hmanifest by done.
  assert (Package_IndexLock (Package_ (pm s2))
          = Package_IndexLock (Package_ (pm s1))) as Hkept by done.
  assert (calls s2 = calls s1) as Hcalls by done.
  clearbody s2.
  unfold InstallNewDependencies, bind, wrapf, modify. rewrite Hinstall, <-Hs2.
  unfold callSaveIndex, check, extern. rewrite Hsave.
  unfold callSaveIndexLock, check, extern. cbn [pm world with_world called].
  rewrite Hlock. cbn. rewrite Hkept, Hcalls, <-app_assoc. done.
Qed.

(** When the manifest cannot be saved, [InstallNewDependencies] returns the
    error wrapped and does not save the lock; the manifest in memory is
    already the reconciled one and is not restored. *)
Theorem InstallNewDependencies_save_fails (depends : list string)
    (replace : bool) (s s1 : State W) (installed : list string)
    (replaced : gset string) (w3 : W) (e : error) :
  installDependencies depends replace s = (s1, inr (installed, replaced)) →
  let s2 := reconcileManifest replaced depends s1 in
  SaveIndex (Package_ (pm s2)) (world s2) = (w3, Some e) →
  let r := InstallNewDependencies depends replace s in
  r.2 = inl (Errorf "failed to save index: " e) ∧
  manifest (pm r.1)
  = reconcile ParseIndexDependency replaced depends (manifest (pm s1)) ∧
  world r.1 = w3 ∧
  calls r.1 = calls s1 ++ [CallSaveIndex (Package_Index (Package_ (pm s2)))].
Proof.
  intros Hinstall s2 Hsave r. unfold r.
  assert (s2 = reconcileManifest replaced depends s1) as Hs2 by done.
  assert (manifest (pm s2)
          = reconcile ParseIndexDependency replaced depends (manifest (pm s1)))
    as Hmanifest by done.
  assert (calls s2 = calls s1) as Hcalls by done.
  clearbody s2.
  unfold InstallNewDependencies, bind, wrapf, modify. rewrite Hinstall, <-Hs2.
  unfold callSaveIndex, check, extern. rewrite Hsave. cbn. by rewrite Hcalls.
Qed.

Lemma installDependencies_calls (depends : list string) (replace : bool)
    (s : State W) :
  ∃ new,
    calls (installDependencies depends replace s).1
    = calls s ++ CallDownload depends replace :: new ∧
    Forall (λ c, isSave c = false) new.
Proof.
  unfold installDependencies, bind, wrapf at 1, method.
  destruct (Download depends replace (pm s) (world s)) as [[p w] [e|[installed replaced]]].
  - exists []. by split.
  - set (s1 := with_pm p (with_world w (called (CallDownload depends replace) s))).
    unfold wrapf.
    destruct (processInstalledDependencies installed s1) as [s2 r] eqn:Hpost.
    destruct (processInstalledDependencies_savesNothing _ _ _ _ Hpost)
      as (new & Hcalls & Hnew).
    exists new. split; [| done].
    destruct r as [e|[]]; simpl; rewrite Hcalls; simpl; by rewrite <-app_assoc.
Qed.

(** [InstallIndexDependencies] asks the resolver for the manifest as it is,
    without [replace], before anything else; it never saves the manifest,
    and after the install step it leaves the manager's memory alone. *)
Theorem InstallIndexDependencies_trace (s : State W) :
  let r := InstallIndexDependencies s in
  (∃ new,
     calls r.1 = calls s ++ CallDownload (manifest (pm s)) false :: new ∧
     Forall (λ c, isSaveIndex c = false) new) ∧
  pm r.1 = pm (installDependencies (manifest (pm s)) false s).1.
Proof.
  intros r. subst r. unfold InstallIndexDependencies, bind, gets, wrapf.
  destruct (installDependencies_calls (manifest (pm s)) false s)
    as (new & Hcalls & Hnew).
  assert (Forall (λ c, isSaveIndex c = false) new) as Hnew'.
  { eapply Forall_impl; [exact Hnew |]. by intros []. }
  destruct (installDependencies _ _ s) as [s1 [e|[installed replaced]]];
    simpl in *.
  - split; [by exists new | done].
  - unfold callSaveIndexLock, check, extern.
    destruct (SaveIndexLock _ _) as [w [e|]]; simpl;
      (split; [| done]);
      exists (new ++ [CallSaveIndexLock (Package_IndexLock (Package_ (pm s1)))]);
      (split; [by rewrite Hcalls, <-app_assoc
              | apply Forall_app; split; [done | by repeat constructor]]).
Qed.

Lemma rewriteLinks_trace (pkgPath : string) (deps : list string)
    (s s' : State W) :
  (∀ a b p w, (rewriteDepLinks a b p w).1.1 = p) →
  forEach deps (rewriteOne pkgPath) s = (s', inr tt) →
  pm s' = pm s ∧
  calls s' = calls s
    ++ ((λ dep, CallRewriteDepLinks pkgPath
                  (AppCode (lockOf (ParseIndexDependency dep).1 (pm s))))
          <$> deps).
Proof.
  intros Hframe. revert s. induction deps as [|dep deps IH]; intros s; simpl.
  - intros [= <-]. by rewrite app_nil_r.
  - unfold bind at 1. unfold rewriteOne at 1.
    unfold bind, gets, wrapf, check, method.
    pose proof (Hframe pkgPath
                  (AppCode (lockOf (ParseIndexDependency dep).1 (pm s)))
                  (pm s) (world s)) as Hpm.
    destruct (rewriteDepLinks _ _ _ _) as [[p w] [e|]]; [done |].
    simpl in Hpm. subst p.
    intros [Hpm' Hcalls]%IH. simpl in *.
    split; [done |]. by rewrite Hcalls, <-app_assoc.
Qed.

(** When post-processing succeeds and link rewriting leaves the manager's
    memory as it is, the calls made are, for each installed package in
    order, one link rewrite per dependency the package declares and then one
    cache rebuild, on the package's own directory. *)
Theorem processInstalledDependencies_trace (installed : list string)
    (s s' : State W) :
  (∀ a b p w, (rewriteDepLinks a b p w).1.1 = p) →
  processInstalledDependencies installed s = (s', inr tt) →
  pm s' = pm s ∧
  calls s' = calls s ++ (sourceName ← installed; postProcessingOf (pm s) sourceName).
Proof.
  intros Hframe. unfold processInstalledDependencies.
  revert s. induction installed as [|sourceName installed IH]; intros s; simpl.
  - intros [= <-]. by rewrite app_nil_r.
  - unfold bind at 1. unfold processOne at 1. unfold bind at 1 2 3, gets.
    destruct (forEach _ (rewriteOne _) s) as [s1 [e|[]]] eqn:Hlinks; [done |].
    apply (rewriteLinks_trace _ _ _ _ Hframe) in Hlinks as [Hpm1 Hcalls1].
    unfold wrapf, check, extern.
    destruct (BuildPackageCache _ _) as [w [e|]]; [done |].
    intros [Hpm Hcalls]%IH. simpl in *.
    split; [congruence |].
    rewrite Hcalls, Hcalls1, Hpm1. unfold postProcessingOf.
    by rewrite <-!app_assoc.
Qed.

End InstallerMore.

Section InstallerMoreExamples.

Import Pacman Examples.

Lemma InstallNewDependencies_persists_witness :
  let s1 := (installDependencies ["A@2"] true beforeReplace).1 in
  let s2 := reconcileManifest {["A"]} ["A@2"] s1 in
  let r := InstallNewDependencies ["A@2"] true beforeReplace in
  r.2 = inr ["A"] ∧
  pm r.1 = pm s2 ∧ world r.1 = world beforeReplace ∧
  calls r.1 = calls s1 ++ [CallSaveIndex (Package_Index (Package_ (pm s2)));
                           CallSaveIndexLock (Package_IndexLock (Package_ (pm s1)))] ∧
  Index_Depends (Package_Index (Package_ (pm s2)))
  = reconcile ParseIndexDependency {["A"]} ["A@2"] (manifest (pm s1)).
Proof.
  apply (InstallNewDependencies_persists ["A@2"] true beforeReplace
           (installDependencies ["A@2"] true beforeReplace).1 ["A"] {["A"]}
           (world beforeReplace) (world beforeReplace)).
  - vm_compute. reflexivity.
  - reflexivity.
  - reflexivity.
Defined.

Lemma InstallNewDependencies_save_fails_witness :
  let s1 := (installDependencies (H:=readOnly) ["A@2"] true beforeReplace).1 in
  let r := InstallNewDependencies (H:=readOnly) ["A@2"] true beforeReplace in
  r.2 = inl (Errorf "failed to save index: " (ErrNew "read-only file system")) ∧
  manifest (pm r.1)
  = reconcile (ParseIndexDependency (Collaborators:=readOnly)) {["A"]} ["A@2"]
      (manifest (pm s1)) ∧
  world r.1 = world beforeReplace ∧
  calls r.1
  = calls s1
    ++ [CallSaveIndex
          (Package_Index
             (Package_ (pm (reconcileManifest (H:=readOnly) {["A"]} ["A@2"] s1))))].
Proof.
  apply (InstallNewDependencies_save_fails (H:=readOnly) ["A@2"] true
           beforeReplace
           (installDependencies (H:=readOnly) ["A@2"] true beforeReplace).1
           ["A"] {["A"]} (world beforeReplace) (ErrNew "read-only file system")).
  - vm_compute. reflexivity.
  - reflexivity.
Defined.

Lemma processInstalledDependencies_trace_witness :
  let s' := (processInstalledDependencies ["app"; "lib"] afterDownload).1 in
  pm s' = pm afterDownload ∧
  calls s'
  = calls afterDownload
    ++ (sourceName ← ["app"; "lib"]; postProcessingOf (pm afterDownload) sourceName).
Proof.
  apply (processInstalledDependencies_trace ["app"; "lib"] afterDownload
           (processInstalledDependencies ["app"; "lib"] afterDownload).1).
  - intros a b p w. reflexivity.
  - vm_compute. reflexivity.
Defined.

(** The calls of the example: [app] declares [lib@1] and [core]. *)
Example processInstalledDependencies_app :
  calls (processInstalledDependencies ["app"; "lib"] afterDownload).1
  = [CallRewriteDepLinks "pkg/.dep/app-2.0" "lib-1.0";
     CallRewriteDepLinks "pkg/.dep/app-2.0" "core-3.1";
     CallBuildPackageCache "pkg/.dep/app-2.0/index.json";
     CallBuildPackageCache "pkg/.dep/lib-1.0/index.json"].
Proof. vm_compute. reflexivity. Qed.

End InstallerMoreExamples.

(** ** The validator orchestrator: further properties *)

Section ValidateMore.

Import Pacman.
Context `{Collaborators W}.

Lemma makesOnly_ret {A} (allowed : Call → bool) (a : A) :
  makesOnly (W:=W) allowed (ret a).
Proof.
  intros s s' r [= <- <-]. split; [done |]. exists []. by rewrite app_nil_r.
Qed.

Lemma makesOnly_gets {A} (allowed : Call → bool) (f : State W → A) :
  makesOnly allowed (gets f).
Proof.
  intros s s' r [= <- <-]. split; [done |]. exists []. by rewrite app_nil_r.
Qed.

Lemma makesOnly_bind {A B} (allowed : Call → bool) (c : M (State W) A)
    (k : A → M (State W) B) :
  makesOnly allowed c → (∀ a, makesOnly allowed (k a)) →
  makesOnly allowed (bind c k).
Proof.
  intros Hc Hk s s' r. unfold bind.
  destruct (c s) as [s1 [e|a]] eqn:Hcs.
  - intros [= <- <-]. by eapply Hc.
  - intros Hka. destruct (Hc _ _ _ Hcs) as (P1 & n1 & E1 & F1).
    destruct (Hk _ _ _ _ Hka) as (P2 & n2 & E2 & F2).
    split; [congruence |]. exists (n1 ++ n2).
    split; [by rewrite E2, E1, app_assoc | by apply Forall_app].
Qed.

Lemma makesOnly_wrapf {A} (allowed : Call → bool) (ctx : string)
    (c : M (State W) A) :
  makesOnly allowed c → makesOnly allowed (wrapf ctx c).
Proof.
  intros Hc s s' r. unfold wrapf.
  destruct (c s) as [s1 [e|a]] eqn:Hcs; intros [= <- <-]; by eapply Hc.
Qed.

Lemma makesOnly_forEach {A} (allowed : Call → bool) (l : list A)
    (body : A → M (State W) unit) :
  (∀ x, makesOnly allowed (body x)) → makesOnly allowed (forEach l body).
Proof.
  intros Hbody. induction l as [|x l IH]; simpl.
  - apply makesOnly_ret.
  - apply makesOnly_bind; auto.
Qed.

Lemma makesOnly_extern {A} (allowed : Call → bool) (c : Call) (f : W → W * A)
    (s s' : State W) (a : A) :
  allowed c = true → extern c f s = (s', a) →
  pm s' = pm s ∧
  ∃ new, calls s' = calls s ++ new ∧ Forall (λ c, allowed c = true) new.
Proof.
  intros Hc. unfold extern. destruct (f (world s)) as [w a'].
  intros [= <- <-]. split; [done |]. exists [c]. split; [done |].
  by repeat constructor.
Qed.

Lemma makesOnly_check (allowed : Call → bool) (c : Call)
    (f : W → W * option error) :
  allowed c = true → makesOnly allowed (check (extern c f)).
Proof.
  intros Hc s s' r. unfold check.
  destruct (extern c f s) as [s1 [e|]] eqn:Hext; intros [= <- <-];
    by eapply makesOnly_extern.
Qed.

Lemma makesOnly_call {A} (allowed : Call → bool) (c : Call)
    (f : W → W * (error + A)) :
  allowed c = true → makesOnly allowed (extern c f).
Proof. intros Hc s s' r. by apply makesOnly_extern. Qed.

Lemma loadDependency_calls (dep : PackageLock) :
  makesOnly isValidation (loadDependency dep).
Proof.
  unfold loadDependency.
  apply makesOnly_bind; [apply makesOnly_gets | intros dir].
  apply makesOnly_bind.
  - by apply makesOnly_wrapf, makesOnly_call.
  - intros idx. by apply makesOnly_wrapf, makesOnly_check.
Qed.

Lemma prepareValidator_calls : makesOnly isValidation prepareValidator.
Proof.
  unfold prepareValidator.
  apply makesOnly_bind; [apply makesOnly_gets | intros indexFile].
  apply makesOnly_bind;
    [by apply makesOnly_wrapf, makesOnly_call | intros p].
  apply makesOnly_bind;
    [by apply makesOnly_wrapf, makesOnly_check | intros _].
  apply makesOnly_bind.
  - intros s s' r [= <- <-]. split; [done |].
    exists [CallMakeCtiValidator]. split; [done | by repeat constructor].
  - intros _. by apply makesOnly_wrapf, makesOnly_check.
Qed.

(** Whatever [Validate] returns, every call it has made is a call of lines
    116-138: it never asks the resolver for anything, rewrites no links,
    rebuilds the cache of no dependency and saves neither the manifest nor
    the lock. What it writes, it writes through [DumpCache]. *)
Theorem Validate_calls (order : list PackageLock) (s : State W) :
  ∃ new, calls (Validate order s).1 = calls s ++ new ∧
         Forall (λ c, isValidation c = true) new ∧
         Forall (λ c, isSave c = false) new.
Proof.
  assert (makesOnly isValidation (validate order)) as Hvalidate.
  { unfold validate.
    apply makesOnly_bind; [apply prepareValidator_calls | intros _].
    apply makesOnly_bind.
    - apply makesOnly_forEach, loadDependency_calls.
    - intros _ s0 s' r. destruct (extern _ _ s0) as [s1 v] eqn:Hext.
      intros [= <- <-].
      exact (makesOnly_extern isValidation CallValidateAll _ _ _ _ eq_refl Hext). }
  assert (∃ new, calls (Validate order s).1 = calls s ++ new ∧
                 Forall (λ c, isValidation c = true) new)
    as (new & Hcalls & Hnew).
  { unfold Validate. destruct (validate order s) as [s' [e|v]] eqn:Hrun;
      by eapply Hvalidate. }
  exists new. split; [done |]. split; [done |].
  eapply Forall_impl; [exact Hnew |]. by intros [].
Qed.


Lemma loadDependency_ok (dep : PackageLock) (s s' : State W) :
  loadDependency dep s = (s', inr tt) →
  pm s' = pm s ∧
  readIndexFiles (calls s')
  = readIndexFiles (calls s)
    ++ [filepath_Join [DependenciesDir (pm s); AppCode dep; IndexFileName]].
Proof.
  unfold loadDependency, bind, gets, wrapf, check, extern.
  destruct (ReadIndexFile _ _) as [w1 [cause|idx]]; [done |]. simpl.
  destruct (AddFromFile _ _) as [w2 [cause|]]; [done |].
  intros [= <-]. split; [done |]. simpl.
  unfold readIndexFiles. by rewrite !omap_app, <-app_assoc, app_nil_r.
Qed.

Lemma loadDependencies_ok (order : list PackageLock) (s s' : State W) :
  forEach order loadDependency s = (s', inr tt) →
  pm s' = pm s ∧
  readIndexFiles (calls s')
  = readIndexFiles (calls s)
    ++ ((λ dep, filepath_Join [DependenciesDir (pm s); AppCode dep; IndexFileName])
          <$> order).
Proof.
  revert s. induction order as [|dep order IH]; intros s; simpl.
  - intros [= <-]. by rewrite app_nil_r.
  - unfold bind at 1.
    destruct (loadDependency dep s) as [s1 [e|[]]] eqn:Hdep; [done |].
    apply loadDependency_ok in Hdep as [Hpm1 Hreads1].
    intros [Hpm Hreads]%IH. split; [congruence |].
    by rewrite Hreads, Hreads1, Hpm1, <-app_assoc.
Qed.

(** When the validator is prepared and every locked dependency loads,
    [Validate] returns the list of the engine, empty or not, and the engine
    is the last call made. On the way the manifest of each dependency was
    read once, in the order of the visit, under the installed identifier of
    the dependency. *)
Theorem Validate_loaded (order : list PackageLock) (s s0 s1 : State W) :
  prepareValidator s = (s0, inr tt) →
  forEach order loadDependency s0 = (s1, inr tt) →
  let r := Validate order s in
  r.2 = (ValidateAll (world s1)).2 ∧
  world r.1 = (ValidateAll (world s1)).1 ∧
  calls r.1 = calls s1 ++ [CallValidateAll] ∧
  readIndexFiles (calls r.1)
  = readIndexFiles (calls s0)
    ++ ((λ dep, filepath_Join [DependenciesDir (pm s); AppCode dep; IndexFileName])
          <$> order).
Proof.
  intros Hprep Hload r. unfold r, Validate, validate, bind.
  rewrite Hprep, Hload. unfold extern.
  destruct (ValidateAll (world s1)) as [w v]. simpl.
  repeat split.
  apply loadDependencies_ok in Hload as [_ Hreads].
  destruct (prepareValidator_calls _ _ _ Hprep) as [Hpm _].
  unfold readIndexFiles in *. rewrite omap_app, Hreads, Hpm. simpl.
  by rewrite app_nil_r.
Qed.

(** When the manifest of a locked dependency cannot be read, [Validate]
    returns at once a single error that names the installed identifier of
    the dependency; the cache of that dependency is not looked for and the
    dependencies after it are not read. *)
Theorem Validate_manifest_unreadable (pre post : list PackageLock)
    (dep : PackageLock) (s s0 s1 : State W) (w2 : W) (cause : error) :
  prepareValidator s = (s0, inr tt) →
  forEach pre loadDependency s0 = (s1, inr tt) →
  let indexFile :=
    filepath_Join [DependenciesDir (pm s1); AppCode dep; IndexFileName] in
  ReadIndexFile indexFile (world s1) = (w2, inl cause) →
  let r := Validate (pre ++ dep :: post) s in
  let e := Errorf ("failed to read index file for " +:+ AppCode dep +:+ ": ")
             cause in
  r.2 = [e] ∧ names e (AppCode dep) ∧
  world r.1 = w2 ∧
  calls r.1 = calls s1 ++ [CallReadIndexFile indexFile].
Proof.
  intros Hprep Hpre indexFile Hread r e.
  assert (loadDependency dep s1
          = (with_world w2 (called (CallReadIndexFile indexFile) s1), inl e))
    as Hdep.
  { unfold loadDependency, bind, gets, wrapf, extern.
    fold indexFile. by rewrite Hread. }
  unfold r, Validate, validate, bind. rewrite Hprep.
  rewrite (forEach_abort pre post dep _ _ _ _ _ Hpre Hdep). simpl.
  repeat split. apply names_Errorf.
Qed.

End ValidateMore.

Section ValidateMoreExamples.

Import Pacman Examples.


Lemma Validate_loaded_witness :
  let dep := {| AppCode := "lib-1.0"; Depends := [] |} in
  let s0 := (prepareValidator beforeValidateOk).1 in
  let s1 := (forEach [dep] loadDependency s0).1 in
  let r := Validate [dep] beforeValidateOk in
  r.2 = (ValidateAll (world s1)).2 ∧
  world r.1 = (ValidateAll (world s1)).1 ∧
  calls r.1 = calls s1 ++ [CallValidateAll] ∧
  readIndexFiles (calls r.1)
  = readIndexFiles (calls s0)
    ++ ((λ dep, filepath_Join [DependenciesDir (pm beforeValidateOk);
                               AppCode dep; IndexFileName]) <$> [dep]).
Proof.
  apply (Validate_loaded [{| AppCode := "lib-1.0"; Depends := [] |}]
           beforeValidateOk (prepareValidator beforeValidateOk).1).
  - reflexivity.
  - vm_compute. reflexivity.
Defined.

Lemma Validate_manifest_unreadable_witness :
  let dep := {| AppCode := "lib-1.0"; Depends := [] |} in
  let s1 := (prepareValidator beforeValidateNoIndex).1 in
  let indexFile :=
    filepath_Join [DependenciesDir (pm s1); AppCode dep; IndexFileName] in
  let r := Validate ([] ++ dep :: [dep]) beforeValidateNoIndex in
  let e := Errorf ("failed to read index file for " +:+ AppCode dep +:+ ": ")
             (ErrNew "no such file or directory") in
  r.2 = [e] ∧ names e (AppCode dep) ∧
  world r.1 = world beforeValidateNoIndex ∧
  calls r.1 = calls s1 ++ [CallReadIndexFile indexFile].
Proof.
  apply (Validate_manifest_unreadable []
           [{| AppCode := "lib-1.0"; Depends := [] |}]
           {| AppCode := "lib-1.0"; Depends := [] |} beforeValidateNoIndex
           (prepareValidator beforeValidateNoIndex).1
           (prepareValidator beforeValidateNoIndex).1
           (world beforeValidateNoIndex) (ErrNew "no such file or directory")).
  - reflexivity.
  - reflexivity.
  - vm_compute. reflexivity.
Defined.

End ValidateMoreExamples.

(** ** The bundle packer: failures *)

Section PackMore.

Import Pacman.
Context `{Collaborators W}.

(** When an instance has no type in the registry, [Pack] stops with an
    error that names the instance. The archive is left with the assets of
    the instances scanned before it, each in the order drawn for it, and
    nothing else: no manifest entry, no cache, nothing of the instances
    that follow. *)
Theorem Pack_type_not_found (pm : PackageManager)
    (visit : nat → list (string * Annotation) → list (string * Annotation))
    (s s1 : PackState W)
    (p : ParsedPackage) (w0 w1 : W) (pre post : list Entity) (entity : Entity) :
  ParsePackage (Index_FilePath (Package_Index (Package_ pm))) (pk_world s)
  = (w0, inr p) →
  os_Create (filepath_Join [BaseDir pm; BundleName]) w0 = (w1, None) →
  Instances (Registry p) = pre ++ entity :: post →
  forEach (indexFrom 0 pre) (scanInstance p visit)
    {| pk_world := w1; zipWriter := [] |}
  = (s1, inr tt) →
  Types (Registry p) !! GetParentCti (Cti entity) = None →
  let e := ErrNew ("type " +:+ Cti entity +:+ " not found") in
  Pack pm visit s = (s1, inl e) ∧ names e (Cti entity) ∧
  zipWriter s1
  = copyOf w1 (Parsed_BaseDir p) <$> discoveredAmong p visit (indexFrom 0 pre).
Proof.
  intros Hparse Hcreate Hinst Hpre Htype e.
  assert (scanInstance p visit (length pre, entity) s1 = (s1, inl e)) as Hentity.
  { unfold scanInstance, scanEntity. simpl. by rewrite Htype. }
  split; [| split].
  - unfold Pack. unfold bind at 1. unfold wrapf at 1. unfold onWorld at 1.
    rewrite Hparse. unfold bind at 1. unfold wrapf at 1. unfold check, onWorld.
    simpl. rewrite Hcreate. unfold bind at 1. unfold zip_NewWriter, modify.
    simpl. unfold bind at 1.
    rewrite Hinst, indexFrom_app. simpl.
    by rewrite (forEach_abort _ _ _ _ _ _ _ _ Hpre Hentity).
  - unfold names, e.
    change (strings_Contains ("type " +:+ (Cti entity +:+ " not found"))
              (Cti entity) = true).
    apply strings_Contains_append, strings_Contains_here.
  - apply scanEntities_ok in Hpre as (_ & _ & Hzip). by rewrite Hzip.
Qed.

(** Annotations among which the scan does not stop: every asset-marked
    field of the entity has a value. *)
Lemma scanAnnotations_app (baseDir : string) (entity : Entity)
    (pre rest : list (string * Annotation)) (s : PackState W) :
  (∀ key annotation, (key, annotation) ∈ pre → is_Some (Asset annotation) →
     GetValue_String key (Values entity) ≠ "") →
  scanAnnotations baseDir entity (pre ++ rest) s
  = match scanAnnotations baseDir entity pre s with
    | (s', inl e) => (s', inl e)
    | (s', inr _) => scanAnnotations baseDir entity rest s'
    end.
Proof.
  revert s. induction pre as [|[key annotation] pre IH]; intros s Hvalues;
    simpl; [done |].
  assert (∀ k a, (k, a) ∈ pre → is_Some (Asset a) →
                 GetValue_String k (Values entity) ≠ "") as Hrest
    by (intros k a Hin; apply Hvalues; by right).
  destruct (Asset annotation) as [b|] eqn:Hasset; [| by apply IH].
  destruct (decide _) as [Hempty|_].
  { destruct (Hvalues key annotation); [by left | by rewrite Hasset | done]. }
  unfold bind. destruct (wrapf _ _ s) as [s1 [e|[]]]; [done | by apply IH].
Qed.

(** When the file of an asset cannot be opened, the scan of the entity
    stops with the error wrapped twice, each time with the asset's path.
    No entry is made for that asset: the archive holds what it held and the
    assets found before. *)
Theorem scanEntity_asset_unreadable (p : ParsedPackage)
    (order : list (string * Annotation) → list (string * Annotation))
    (entity typ : Entity)
    (pre post : list (string * Annotation)) (key : string)
    (annotation : Annotation) (s s1 : PackState W) (cause : error) :
  Types (Registry p) !! GetParentCti (Cti entity) = Some typ →
  order (Annotations typ) = pre ++ (key, annotation) :: post →
  (∀ k a, (k, a) ∈ pre → is_Some (Asset a) →
     GetValue_String k (Values entity) ≠ "") →
  is_Some (Asset annotation) →
  let assetPath := GetValue_String key (Values entity) in
  assetPath ≠ "" →
  scanAnnotations (Parsed_BaseDir p) entity pre s = (s1, inr tt) →
  os_OpenFile (filepath_Join [Parsed_BaseDir p; assetPath]) (pk_world s1)
  = inl cause →
  let e := Errorf ("failed to bundle asset " +:+ assetPath +:+ ": ")
             (Errorf ("failed to open asset " +:+ assetPath +:+ ": ") cause) in
  scanEntity p order entity s = (s1, inl e) ∧
  names e assetPath ∧
  zipWriter s1
  = zipWriter s
    ++ (copyOf (pk_world s) (Parsed_BaseDir p) <$> assetPaths entity pre).
Proof.
  intros Htyp Hann Hvalues [b Hasset] assetPath Hpath Hpre Hopen e.
  split; [| split].
  - unfold scanEntity. rewrite Htyp, Hann, scanAnnotations_app, Hpre by done.
    simpl. rewrite Hasset. fold assetPath.
    destruct (decide (assetPath = "")); [done |].
    unfold bind, wrapf, bundleAsset, bind, wrapf, openFile. by rewrite Hopen.
  - apply names_Errorf.
  - by apply scanAnnotations_ok in Hpre as (_ & _ & Hzip).
Qed.

End PackMore.

Section PackMoreExamples.

Import Pacman Examples.

Lemma Pack_type_not_found_witness :
  let w := pk_world beforePackOrphan in
  let s1 := (forEach (indexFrom 0 [widget]) (scanInstance orphanShop alternating)
               {| pk_world := w; zipWriter := [] |}).1 in
  let e := ErrNew ("type " +:+ Cti orphan +:+ " not found") in
  Pack (manager [] ∅) alternating beforePackOrphan = (s1, inl e) ∧
  names e (Cti orphan) ∧
  zipWriter s1
  = copyOf w (Parsed_BaseDir orphanShop)
      <$> discoveredAmong orphanShop alternating (indexFrom 0 [widget]).
Proof.
  apply (Pack_type_not_found (manager [] ∅) alternating beforePackOrphan _
           orphanShop (pk_world beforePackOrphan) (pk_world beforePackOrphan)
           [widget] [widget] orphan).
  - reflexivity.
  - reflexivity.
  - reflexivity.
  - vm_compute. reflexivity.
  - vm_compute. reflexivity.
Defined.

Lemma scanEntity_asset_unreadable_witness :
  let assetPath := GetValue_String "icon" (Values widget) in
  let s1 := (scanAnnotations (Parsed_BaseDir shop) widget [("title", plain)]
               beforeScanNoClock).1 in
  let e := Errorf ("failed to bundle asset " +:+ assetPath +:+ ": ")
             (Errorf ("failed to open asset " +:+ assetPath +:+ ": ")
                (ErrNew "no such file or directory")) in
  scanEntity shop (asListed 0) widget beforeScanNoClock = (s1, inl e) ∧
  names e assetPath ∧
  zipWriter s1
  = zipWriter beforeScanNoClock
    ++ (copyOf (pk_world beforeScanNoClock) (Parsed_BaseDir shop)
          <$> assetPaths widget [("title", plain)]).
Proof.
  apply (scanEntity_asset_unreadable shop (asListed 0) widget widgetType
           [("title", plain)] [("logo", asset)] "icon" asset beforeScanNoClock _
           (ErrNew "no such file or directory")).
  - vm_compute. reflexivity.
  - reflexivity.
  - intros k a [= -> ->]%list_elem_of_singleton [b Hb]. discriminate Hb.
  - by eexists.
  - vm_compute. discriminate.
  - reflexivity.
  - vm_compute. reflexivity.
Defined.

End PackMoreExamples.

(** ** The filesystem replace helpers: the whole disk *)

Section ReplaceMore.

Import Filesys.
Context `{OSLaws Disk}.
#[local] Set Default Proof Using "All".

(** What every path holds after a successful [ReplaceWithMove]. *)
Lemma move_look (src dst : path) (fs fs' : Disk) :
  ReplaceWithMove src dst fs = (fs', inr tt) →
  look fs src ≠ None ∧ strip src dst = None ∧ strip dst src = None ∧
  ∀ q, look fs' q =
       match strip dst q with
       | Some rel => look fs (src ++ rel)
       | None =>
           if within src q then None
           else if within q (filepath_Dir dst) then Some Dir
           else look fs q
       end.
Proof.
  unfold ReplaceWithMove, bind, wrapf, check.
  destruct (os_RemoveAll dst fs) as [fs1 [e|]] eqn:Hrm; [done |].
  destruct (os_MkdirAll _ fs1) as [fs2 [e|]] eqn:Hmk; [done |].
  destruct (os_Rename src dst fs2) as [fs3 [e|]] eqn:Hmv; [done |].
  intros [= <-].
  pose proof (RemoveAll_ok _ _ _ Hrm) as Hlook1.
  pose proof (MkdirAll_ok _ _ _ Hmk) as Hlook2.
  destruct (Rename_ok _ _ _ _ Hmv) as [Hsrc [[-> _]|(Hsd & Hds & Hlook3)]].
  - exfalso. rewrite Hlook2, Hlook1, within_refl in Hsrc.
    destruct (within dst (filepath_Dir dst)) eqn:E; [| done].
    apply within_Dir_self in E as ->.
    pose proof (Hlook1 []) as Hroot. simpl in Hroot.
    by rewrite look_root in Hroot.
  - assert (∀ rel, look fs2 (src ++ rel) = look fs (src ++ rel)) as Hkept.
    { intros rel. rewrite Hlook2, Hlook1.
      rewrite (disjoint_above src dst _ rel Hsd (within_Dir dst)).
      by rewrite (proj2 (within_false _ _) (disjoint_under _ _ rel Hsd Hds)). }
    split; [by rewrite <-(app_nil_r src), <-Hkept, app_nil_r |].
    split; [done |]. split; [done |].
    intros q. rewrite Hlook3.
    destruct (strip dst q) as [rel|] eqn:Hq; [apply Hkept |].
    destruct (within src q); [done |].
    rewrite Hlook2, Hlook1. by rewrite (proj2 (within_false _ _) Hq).
Qed.

(** [ReplaceWithMove] succeeds only for a [src] that exists and only when
    neither path is the other or lies under it. *)
Theorem ReplaceWithMove_only_disjoint (src dst : path) (fs fs' : Disk) :
  ReplaceWithMove src dst fs = (fs', inr tt) →
  look fs src ≠ None ∧ within src dst = false ∧ within dst src = false.
Proof.
  intros (Hsrc & Hsd & Hds & _)%move_look.
  by rewrite !within_false.
Qed.

(** A successful [ReplaceWithMove] leaves the rest of the disk alone: a
    path outside [src] and [dst] holds what it held, except that the
    directories above [dst] now exist. *)
Theorem ReplaceWithMove_frame (src dst : path) (fs fs' : Disk) :
  ReplaceWithMove src dst fs = (fs', inr tt) →
  ∀ q, within src q = false → within dst q = false →
    look fs' q = if within q (filepath_Dir dst) then Some Dir else look fs q.
Proof.
  intros (_ & _ & _ & Hlook)%move_look q Hsrc Hdst%within_false.
  by rewrite Hlook, Hdst, Hsrc.
Qed.

(** Moving [src] to [dst] and back: [src] holds what it held, path by
    path, and nothing is left at [dst]. *)
Theorem ReplaceWithMove_round_trip (src dst : path) (fs fs' fs'' : Disk) :
  ReplaceWithMove src dst fs = (fs', inr tt) →
  ReplaceWithMove dst src fs' = (fs'', inr tt) →
  ∀ rel, look fs'' (src ++ rel) = look fs (src ++ rel) ∧
         look fs'' (dst ++ rel) = None.
Proof.
  intros (_ & Hsd & Hds & Hthere)%move_look (_ & _ & _ & Hback)%move_look rel.
  split; rewrite Hback.
  - by rewrite strip_app, Hthere, strip_app.
  - by rewrite (disjoint_under _ _ rel Hds Hsd), within_app.
Qed.

(** A successful [ReplaceWithCopy] between two different paths had a
    directory at [src], and leaves the rest of the disk alone: a path
    outside [dst] holds what it held, except that the directories above
    [dst] now exist. *)
Theorem ReplaceWithCopy_frame (src dst : path) (fs fs' : Disk) :
  src ≠ dst →
  ReplaceWithCopy src dst fs = (fs', inr tt) →
  look fs src = Some Dir ∧
  ∀ q, within dst q = false →
    look fs' q = if within q dst then Some Dir else look fs q.
Proof.
  intros Hne (Hsrc & _ & _ & Hlook)%copy_look; [| done].
  split; [done |]. intros q Hq%within_false. by rewrite Hlook, Hq.
Qed.

(** Running [ReplaceWithCopy] again changes nothing: after the second
    successful call every path holds what it held after the first. *)
Theorem ReplaceWithCopy_again (src dst : path) (fs fs' fs'' : Disk) :
  src ≠ dst →
  ReplaceWithCopy src dst fs = (fs', inr tt) →
  ReplaceWithCopy src dst fs' = (fs'', inr tt) →
  ∀ q, look fs'' q = look fs' q.
Proof.
  intros Hne (_ & Hsd & Hds & Hfirst)%copy_look (_ & _ & _ & Hsecond)%copy_look;
    [| done ..].
  intros q. rewrite Hsecond, (Hfirst q).
  destruct (strip dst q) as [rel|] eqn:Hq.
  - rewrite Hfirst, (disjoint_under _ _ rel Hsd Hds).
    by rewrite (disjoint_above src dst dst rel Hsd (within_refl dst)).
  - by destruct (within q dst).
Qed.

End ReplaceMore.

Section ReplaceMoreExamples.

Import Filesys.

(** Moving a directory onto itself removes it and then fails to rename
    it. *)
Example ReplaceWithMove_onto_itself :
  let r := ReplaceWithMove ["src"] ["src"] sample in
  r.2 = inl (Errorf "move /src -> /src: " ErrNotExist) ∧
  look r.1 ["src"] = None.
Proof. vm_compute. done. Qed.

Lemma ReplaceWithMove_only_disjoint_witness :
  look sample ["src"] ≠ None ∧
  within ["src"] ["dst"] = false ∧ within ["dst"] ["src"] = false.
Proof.
  apply (ReplaceWithMove_only_disjoint (H0:=tree_OSLaws) ["src"] ["dst"] sample
           (ReplaceWithMove ["src"] ["dst"] sample).1).
  vm_compute. reflexivity.
Defined.

(** [/src] is moved to [/dst/new]: [/dst/old] is as it was. *)
Lemma ReplaceWithMove_frame_witness :
  look (ReplaceWithMove ["src"] ["dst"; "new"] sample).1 ["dst"; "old"]
  = if within ["dst"; "old"] (filepath_Dir ["dst"; "new"]) then Some Dir
    else look sample ["dst"; "old"].
Proof.
  apply (ReplaceWithMove_frame (H0:=tree_OSLaws) ["src"] ["dst"; "new"] sample).
  - vm_compute. reflexivity.
  - reflexivity.
  - reflexivity.
Defined.

Lemma ReplaceWithMove_round_trip_witness :
  let there := (ReplaceWithMove ["src"] ["dst"] sample).1 in
  let back := (ReplaceWithMove ["dst"] ["src"] there).1 in
  look back (["src"] ++ ["f"]) = look sample (["src"] ++ ["f"]) ∧
  look back (["dst"] ++ ["f"]) = None.
Proof.
  apply (ReplaceWithMove_round_trip (H0:=tree_OSLaws) ["src"] ["dst"] sample
           (ReplaceWithMove ["src"] ["dst"] sample).1).
  - vm_compute. reflexivity.
  - vm_compute. reflexivity.
Defined.

Lemma ReplaceWithCopy_frame_witness :
  look sample ["src"] = Some Dir ∧
  ∀ q, within ["dst"] q = false →
    look (ReplaceWithCopy ["src"] ["dst"] sample).1 q
    = if within q ["dst"] then Some Dir else look sample q.
Proof.
  apply (ReplaceWithCopy_frame (H0:=tree_OSLaws) ["src"] ["dst"] sample).
  - discriminate.
  - vm_compute. reflexivity.
Defined.

Lemma ReplaceWithCopy_again_witness :
  let once := (ReplaceWithCopy ["src"] ["dst"] sample).1 in
  let twice := (ReplaceWithCopy ["src"] ["dst"] once).1 in
  look twice ["dst"; "f"] = look once ["dst"; "f"].
Proof.
  apply (ReplaceWithCopy_again (H0:=tree_OSLaws) ["src"] ["dst"] sample).
  - discriminate.
  - vm_compute. reflexivity.
  - vm_compute. reflexivity.
Defined.

End ReplaceMoreExamples.

(** ** The bundle's dictionaries: order of the files *)

Section DictionaryMore.

Import Bundle.
Context `{Collaborators Entry}.

Lemma decodes_agree (baseDir dict : string) (entry entry' : Entry) :
  decodes baseDir dict entry → decodes baseDir dict entry' → entry = entry'.
Proof. intros (file & Hopen & Hdec) (file' & Hopen' & Hdec'). congruence. Qed.

Lemma readDictionaries_app (baseDir : string) (pre rest : list string)
    (acc m : gmap string Entry) :
  readDictionaries baseDir pre acc = inr m →
  readDictionaries baseDir (pre ++ rest) acc = readDictionaries baseDir rest m.
Proof.
  revert acc. induction pre as [|d pre IH]; intros acc; simpl.
  - by intros [= ->].
  - destruct (os_Open _) as [cause|file]; [done |].
    destruct (validateDictionary file) as [cause|entry]; [done |]. apply IH.
Qed.

Lemma readDictionaries_total (baseDir : string) (dicts : list string)
    (acc : gmap string Entry) :
  (∀ dict, dict ∈ dicts → ∃ entry, decodes baseDir dict entry) →
  ∃ m, readDictionaries baseDir dicts acc = inr m.
Proof.
  revert acc. induction dicts as [|d rest IH]; intros acc Hall; simpl.
  - by exists acc.
  - destruct (Hall d) as (entry & file & Hopen & Hdec); [by left |].
    unfold validateDictionary. rewrite Hopen, Hdec.
    apply IH. intros dict Hdict. apply Hall. by right.
Qed.

(** [GetDictionaries] succeeds exactly when every listed file opens and
    decodes. *)
Theorem GetDictionaries_succeeds_iff (b : Bundle) :
  (GetDictionaries b).2 = None ↔
  ∀ dict, dict ∈ Dictionaries (Index_ b) → ∃ entry, decodes (BaseDir b) dict entry.
Proof.
  unfold GetDictionaries. split.
  - destruct (readDictionaries _ _ ∅) as [e|m] eqn:Hread; [done |].
    intros _. by apply readDictionaries_ok in Hread as (_ & _ & _ & Hall).
  - intros [m Hm]%(readDictionaries_total _ _ ∅). by rewrite Hm.
Qed.

(** The error is that of the first listed file that fails, whatever the
    files listed after it: when the files before [dict] open and decode,
    a [dict] that cannot be opened gives the open error, and a [dict] that
    cannot be decoded gives the decode error. *)
Theorem GetDictionaries_first_failure (b : Bundle) (pre post : list string)
    (dict : string) :
  Dictionaries (Index_ b) = pre ++ dict :: post →
  (∀ d, d ∈ pre → ∃ entry, decodes (BaseDir b) d entry) →
  match os_Open (path_Join [BaseDir b; dict]) with
  | inl cause =>
      GetDictionaries b
      = (Dictionaries_zero, Some (Errorf "open dictionary file: " cause))
  | inr file =>
      ∀ cause, json_Decode file = inl cause →
        GetDictionaries b
        = (Dictionaries_zero,
           Some (Errorf "validate dictionary: "
                   (Errorf "decode dictionary: " cause)))
  end.
Proof.
  intros Hsplit [m Hm]%(readDictionaries_total _ _ ∅).
  unfold GetDictionaries.
  rewrite Hsplit, (readDictionaries_app _ _ _ _ _ Hm). simpl.
  destruct (os_Open _) as [cause|file]; [done |].
  intros cause Hdec. unfold validateDictionary. by rewrite Hdec.
Qed.

(** When the base names of the listed files are distinct, the order of
    the list does not matter to a successful call. *)
Theorem GetDictionaries_order (b b' : Bundle) :
  BaseDir b' = BaseDir b →
  Dictionaries (Index_ b') ≡ₚ Dictionaries (Index_ b) →
  NoDup (lang (BaseDir b) <$> Dictionaries (Index_ b)) →
  (GetDictionaries b).2 = None →
  GetDictionaries b' = GetDictionaries b.
Proof.
  intros Hdir Hperm Hnodup. unfold GetDictionaries. rewrite Hdir.
  destruct (readDictionaries _ (Dictionaries (Index_ b)) ∅) as [e|m] eqn:Hread;
    [done |].
  intros _.
  apply readDictionaries_ok in Hread as (Hdom & _ & Hnew & Hall).
  destruct (readDictionaries_total (BaseDir b) (Dictionaries (Index_ b')) ∅)
    as [m' Hread'].
  { intros dict Hdict. apply Hall. by rewrite <-Hperm. }
  rewrite Hread'.
  apply readDictionaries_ok in Hread' as (Hdom' & _ & Hnew' & _).
  assert (NoDup (lang (BaseDir b) <$> Dictionaries (Index_ b'))) as Hnodup'
    by (by rewrite Hperm).
  assert (∀ dicts (n : gmap string Entry),
            NoDup (lang (BaseDir b) <$> dicts) →
            (∀ pre dict post, dicts = pre ++ dict :: post →
               lang (BaseDir b) dict ∉ lang (BaseDir b) <$> post →
               ∃ entry, decodes (BaseDir b) dict entry ∧
                        n !! lang (BaseDir b) dict = Some entry) →
            ∀ dict, dict ∈ dicts →
              ∃ entry, decodes (BaseDir b) dict entry ∧
                       n !! lang (BaseDir b) dict = Some entry) as Hevery.
  { intros dicts n Hnd Hlast dict (pre & post & ->)%list_elem_of_split.
    apply (Hlast pre dict post eq_refl).
    rewrite fmap_app, fmap_cons in Hnd.
    apply NoDup_app in Hnd as (_ & _ & Hnd). by apply NoDup_cons in Hnd as [? _]. }
  enough (m' = m) as -> by done. apply map_eq. intros k.
  destruct (decide (k ∈ lang (BaseDir b) <$> Dictionaries (Index_ b)))
    as [Hk|Hk].
  - apply list_elem_of_fmap in Hk as (dict & -> & Hdict).
    destruct (Hevery _ m Hnodup Hnew dict Hdict) as (entry & Hentry & ->).
    destruct (Hevery _ m' Hnodup' Hnew' dict) as (entry' & Hentry' & ->);
      [by rewrite Hperm |].
    f_equal. by eapply decodes_agree.
  - assert (k ∉ dom m) as Hm.
    { rewrite Hdom, dom_empty_L, union_empty_l_L, elem_of_list_to_set. done. }
    assert (k ∉ dom m') as Hm'.
    { rewrite Hdom', dom_empty_L, union_empty_l_L, elem_of_list_to_set.
      by rewrite Hperm. }
    apply not_elem_of_dom in Hm, Hm'. by rewrite Hm, Hm'.
Qed.

End DictionaryMore.

Section DictionaryMoreExamples.

Import Bundle BundleExamples.

Lemma GetDictionaries_first_failure_witness :
  match os_Open (path_Join [BaseDir (app ["i18n/en.json"; "i18n/de.json";
                                          "i18n/xx.json"]); "i18n/de.json"]) with
  | inl cause =>
      GetDictionaries (app ["i18n/en.json"; "i18n/de.json"; "i18n/xx.json"])
      = (Dictionaries_zero, Some (Errorf "open dictionary file: " cause))
  | inr file =>
      ∀ cause, json_Decode file = inl cause →
        GetDictionaries (app ["i18n/en.json"; "i18n/de.json"; "i18n/xx.json"])
        = (Dictionaries_zero,
           Some (Errorf "validate dictionary: "
                   (Errorf "decode dictionary: " cause)))
  end.
Proof.
  apply (GetDictionaries_first_failure
           (app ["i18n/en.json"; "i18n/de.json"; "i18n/xx.json"])
           ["i18n/en.json"] ["i18n/xx.json"] "i18n/de.json").
  - reflexivity.
  - intros d ->%list_elem_of_singleton. exists "hello".
    exists (String.list_byte_of_string "hello"). vm_compute. done.
Defined.

Lemma GetDictionaries_order_witness :
  GetDictionaries (app ["i18n/fr.json"; "i18n/en.json"])
  = GetDictionaries (app ["i18n/en.json"; "i18n/fr.json"]).
Proof.
  apply (GetDictionaries_order (app ["i18n/en.json"; "i18n/fr.json"])
           (app ["i18n/fr.json"; "i18n/en.json"])).
  - reflexivity.
  - apply perm_swap.
  - refine (bool_decide_unpack _ _). vm_compute. exact I.
  - vm_compute. reflexivity.
Defined.

End DictionaryMoreExamples.

(** ** The bundle: construction and reading *)

Section BundleFacts.

Import BundleStruct.
Context {Info CtiRegistry : Type} `{Collaborators Info}.

Lemma call_keeps (opt : InitializeOption) (b : Bundle Info CtiRegistry) :
  BaseDir (call opt b) = BaseDir b ∧
  IndexLock_ (call opt b) = IndexLock_ b ∧
  Registry (call opt b) = Registry b ∧
  Bundle.Dictionaries (Index_ (call opt b)) = Bundle.Dictionaries (Index_ b).
Proof. by destruct opt as [| |[]]. Qed.

(** The options touch the application code, the version and the entities
    of the index, and nothing else. *)
Lemma options_keep (options : list InitializeOption)
    (b : Bundle Info CtiRegistry) :
  let b' := foldl (λ b opt, call opt b) b options in
  BaseDir b' = BaseDir b ∧ IndexLock_ b' = IndexLock_ b ∧
  Registry b' = Registry b ∧
  Bundle.Dictionaries (Index_ b') = Bundle.Dictionaries (Index_ b).
Proof.
  induction options as [|opt options IH] using rev_ind; [done |].
  rewrite foldl_app. simpl.
  destruct (call_keeps opt (foldl (λ b o, call o b) b options))
    as (-> & -> & -> & ->).
  exact IH.
Qed.

(** Whatever the options, the bundle [New] returns has the given path, a
    lock with the current version and two empty maps, no registry and no
    dictionaries. *)
Theorem New_fresh (path : string) (options : list InitializeOption) :
  let b : Bundle Info CtiRegistry := New path options in
  BaseDir b = path ∧
  IndexLock_ b = {| Version := IndexLockVersion; DependentBundles := ∅;
                    SourceInfo := ∅ |} ∧
  Registry b = None ∧
  Bundle.Dictionaries (Index_ b) = [].
Proof. exact (options_keep options (fresh path)). Qed.

(** Of several options for one field the last wins, and [WithEntities(nil)]
    counts for nothing: each field holds what the last option for it asked
    for, or its zero value. *)
Theorem New_last_wins (path : string) (options : list InitializeOption) :
  let b : Bundle Info CtiRegistry := New path options in
  Bundle.AppCode (Index_ b) = default "" (last (omap appCodeOf options)) ∧
  Bundle.RamlxVersion (Index_ b)
  = default "" (last (omap ramlxVersionOf options)) ∧
  Bundle.Entities (Index_ b) = default [] (last (omap entitiesOf options)).
Proof.
  unfold New. induction options as [|opt options IH] using rev_ind; [done |].
  rewrite foldl_app, !omap_app. simpl.
  destruct IH as (Happ & Hver & Hent).
  destruct opt as [appCode|version|[entities|]]; simpl;
    rewrite ?app_nil_r, ?last_snoc; simpl; done.
Qed.

(** A bundle fresh from [New] lists no dictionaries: [GetDictionaries]
    returns an empty map, not a nil one, and no error, whatever the options
    and whatever the files. *)
Theorem New_GetDictionaries `{Bundle.Collaborators Entry} (path : string)
    (options : list InitializeOption) :
  Bundle.GetDictionaries
    (dictionarySource (New (CtiRegistry:=CtiRegistry) path options))
  = ({| Bundle.Dictionaries_map := Some ∅ |}, None).
Proof.
  destruct (options_keep options (fresh path)) as (_ & _ & _ & Hnone).
  unfold Bundle.GetDictionaries, dictionarySource, New. simpl.
  by rewrite Hnone.
Qed.

(** [Read] is all or nothing: when it fails the bundle is as it was, also
    when the index was read and only the lock could not be. The error is
    that of the index, or else that of the lock, wrapped. *)
Theorem Read_all_or_nothing (b b' : Bundle Info CtiRegistry) (e : error) :
  Read b = (b', Some e) →
  b' = b ∧
  ((∃ cause, ReadIndex (BaseDir b) = inl cause ∧
             e = Errorf "read index file: " cause) ∨
   (∃ idx cause, ReadIndex (BaseDir b) = inr idx ∧
                 ReadIndexLock (BaseDir b) = inl cause ∧
                 e = Errorf "read index lock: " cause)).
Proof.
  unfold Read.
  destruct (ReadIndex _) as [cause|idx]; [intros [= <- <-]; eauto |].
  destruct (ReadIndexLock _) as [cause|idxLock]; [| done].
  intros [= <- <-]. split; [done |]. right. eauto.
Qed.

(** After a successful [Read] the bundle has the index and the lock of its
    directory and the directory and registry it had; reading again gives
    the same bundle. *)
Theorem Read_again (b b' : Bundle Info CtiRegistry) :
  Read b = (b', None) →
  BaseDir b' = BaseDir b ∧ Registry b' = Registry b ∧
  ReadIndex (BaseDir b) = inr (Index_ b') ∧
  ReadIndexLock (BaseDir b) = inr (IndexLock_ b') ∧
  Read b' = (b', None).
Proof.
  unfold Read.
  destruct (ReadIndex (BaseDir b)) as [cause|idx] eqn:Hidx; [done |].
  destruct (ReadIndexLock (BaseDir b)) as [cause|idxLock] eqn:Hlock; [done |].
  intros [= <-]. simpl. by rewrite Hidx, Hlock.
Qed.

End BundleFacts.

Section BundleFactsExamples.

Import BundleStruct BundleStructExamples.

Lemma Read_all_or_nothing_witness :
  let e := Errorf "read index lock: " (ErrNew "no such file or directory") in
  (Read (bundleAt "draft")).1 = bundleAt "draft" ∧
  ((∃ cause, ReadIndex (BaseDir (bundleAt "draft")) = inl cause ∧
             e = Errorf "read index file: " cause) ∨
   (∃ idx cause, ReadIndex (BaseDir (bundleAt "draft")) = inr idx ∧
                 ReadIndexLock (BaseDir (bundleAt "draft")) = inl cause ∧
                 e = Errorf "read index lock: " cause)).
Proof.
  apply (Read_all_or_nothing (bundleAt "draft") (Read (bundleAt "draft")).1
           (Errorf "read index lock: " (ErrNew "no such file or directory"))).
  vm_compute. reflexivity.
Defined.

Lemma Read_again_witness :
  let b' := (Read (bundleAt "app")).1 in
  BaseDir b' = BaseDir (bundleAt "app") ∧
  Registry b' = Registry (bundleAt "app") ∧
  ReadIndex (BaseDir (bundleAt "app")) = inr (Index_ b') ∧
  ReadIndexLock (BaseDir (bundleAt "app")) = inr (IndexLock_ b') ∧
  Read b' = (b', None).
Proof.
  apply (Read_again (bundleAt "app") (Read (bundleAt "app")).1).
  vm_compute. reflexivity.
Defined.

(** Two options for the application code and a nil list of entities after
    a list of one. *)
Example New_app :
  let b : Bundle unit unit :=
    New "app" [WithAppCode "draft"; WithEntities (Some ["types.raml"]);
               WithEntities None; WithAppCode "app"] in
  Bundle.AppCode (Index_ b) = "app" ∧
  Bundle.Entities (Index_ b) = ["types.raml"] ∧
  Bundle.RamlxVersion (Index_ b) = "".
Proof. vm_compute. done. Qed.

End BundleFactsExamples.
